(** * decimal-js: arbitrary precision decimals and rationals over BigInt

    A shallow embedding of [integer.js], [rational.js] and [decimal.js].

    - A JavaScript [bigint] is a [Z].  BigInt [/] truncates toward zero
      ([Z.quot]), [%] takes the sign of the dividend ([Z.rem]); both throw a
      [RangeError] on a zero divisor, and [**] throws one on a negative
      exponent.
    - A JavaScript string is a [string] of 8-bit characters, so the only
      white space [trim] knows here is the ASCII one.
    - A call either returns, throws, or (for the one loop whose end depends
      on a number-theoretic fact, the long division of [toDecimal]) runs out
      of the fuel it was given: type [completion].  The two other loops,
      Euclid's algorithm and trial division, carry a bound of their own,
      proved sufficient below. *)

From Stdlib Require Import ZArith List String Ascii Bool Lia Zdivisibility.
From Stdlib Require Import DecimalString DecimalZ QArith.
From Stdlib Require Import Sorted.
Import ListNotations.

Local Open Scope string_scope.
Local Open Scope list_scope.
Local Open Scope Z_scope.

(** ** Values and completions *)

(** [IntegerLike] of integer.js: [bigint | number | string].  A [number] is a
    floating point value and is left out. *)
Inductive IntegerLike : Type :=
| IBigInt (z : Z)
| IString (s : string).

(** What a [throw] carries: the two error classes the library meets, each
    with its message; a [RangeError] of the library's own constructors also
    has [cause], the one-field object [{ name: value }]. *)
Inductive exn : Type :=
| RangeError (message : string) (cause : option (string * IntegerLike))
| SyntaxError (message : string).

Inductive completion (A : Type) : Type :=
| Return (a : A)
| Throw (e : exn)
| OutOfFuel.

Arguments Return {A} a.
Arguments Throw {A} e.
Arguments OutOfFuel {A}.

Definition bind {A B : Type} (c : completion A) (k : A -> completion B)
  : completion B :=
  match c with
  | Return a => k a
  | Throw e => Throw e
  | OutOfFuel => OutOfFuel
  end.

Notation "x <- c ;; k" := (bind c (fun x => k))
  (at level 61, c at next level, right associativity).

Definition throws {A : Type} (c : completion A) : Prop :=
  exists e, c = Throw e.

(** ** BigInt primitives *)

(** [x / y] on bigints. *)
Definition bigint_div (x y : Z) : completion Z :=
  if y =? 0 then Throw (RangeError "Division by zero" None)
  else Return (Z.quot x y).

(** [x % y] on bigints. *)
Definition bigint_rem (x y : Z) : completion Z :=
  if y =? 0 then Throw (RangeError "Division by zero" None)
  else Return (Z.rem x y).

(** [x ** y] on bigints. *)
Definition bigint_pow (x y : Z) : completion Z :=
  if y <? 0 then Throw (RangeError "Exponent must be non-negative" None)
  else Return (x ^ y).

(** [String(z)] for a bigint: the decimal literal, ["-"] first when negative. *)
Definition String_of_bigint (z : Z) : string :=
  NilZero.string_of_int (Z.to_int z).

(** [String(v)] (also what a template literal does with [v]). *)
Definition String_of (v : IntegerLike) : string :=
  match v with
  | IBigInt z => String_of_bigint z
  | IString s => s
  end.

(** *** [String.prototype.trim] *)

Definition isWhiteSpace (c : ascii) : bool :=
  let n := nat_of_ascii c in
  ((9 <=? n) && (n <=? 13))%nat || (n =? 32)%nat.

Fixpoint trimStart (s : string) : string :=
  match s with
  | String c s' => if isWhiteSpace c then trimStart s' else s
  | EmptyString => EmptyString
  end.

Fixpoint trimEnd (s : string) : string :=
  match s with
  | String c s' =>
      match trimEnd s' with
      | EmptyString => if isWhiteSpace c then EmptyString else String c EmptyString
      | t => String c t
      end
  | EmptyString => EmptyString
  end.

Definition trim (s : string) : string := trimEnd (trimStart s).

(** *** [BigInt(string)]: the StringToBigInt grammar *)

Definition digitValue (c : ascii) : option Z :=
  let n := Z.of_nat (nat_of_ascii c) in
  if (48 <=? n) && (n <=? 57) then Some (n - 48)
  else if (97 <=? n) && (n <=? 102) then Some (n - 87)
  else if (65 <=? n) && (n <=? 70) then Some (n - 55)
  else None.

(** Digits in [radix], most significant first, onto the accumulator. *)
Fixpoint radixDigits (radix : Z) (acc : Z) (s : string) : option Z :=
  match s with
  | EmptyString => Some acc
  | String c s' =>
      match digitValue c with
      | Some v => if v <? radix then radixDigits radix (acc * radix + v) s'
                  else None
      | None => None
      end
  end.

Definition nonDecimal (radix : Z) (s : string) : option Z :=
  match s with
  | EmptyString => None
  | _ => radixDigits radix 0 s
  end.

Definition decimalDigits (s : string) : option Z :=
  match s with
  | EmptyString => None
  | _ => option_map Z.of_uint (NilEmpty.uint_of_string s)
  end.

Definition StrIntegerLiteral (s : string) : option Z :=
  match s with
  | String "0" (String "x" r) | String "0" (String "X" r) => nonDecimal 16 r
  | String "0" (String "o" r) | String "0" (String "O" r) => nonDecimal 8 r
  | String "0" (String "b" r) | String "0" (String "B" r) => nonDecimal 2 r
  | String "+" r => decimalDigits r
  | String "-" r => option_map Z.opp (decimalDigits r)
  | _ => decimalDigits s
  end.

Definition BigInt_of_string (s : string) : completion Z :=
  match trim s with
  | EmptyString => Return 0
  | t =>
      match StrIntegerLiteral t with
      | Some z => Return z
      | None => Throw (SyntaxError ("Cannot convert " ++ s ++ " to a BigInt"))
      end
  end.

(** ** integer.js *)

(** [Integer(value)]: [BigInt(String(value).trim() || 'NaN')]. *)
Definition Integer (value : IntegerLike) : completion Z :=
  let v := match trim (String_of value) with
           | EmptyString => "NaN"
           | t => t
           end in
  BigInt_of_string v.

Definition max (x y : Z) : Z := if x >? y then x else y.

Definition min (x y : Z) : Z := if x >? y then x else y.

Definition abs (n : Z) : Z := if n >=? 0 then n else - n.

Definition sign (n : Z) : Z :=
  if n >? 0 then 1 else if n <? 0 then -1 else 0.

(** Euclid's algorithm on the truncating remainder.  From the second call
    on the arguments shrink in size, [log2 |x| + log2 |y|] going down each
    time, so [gcd_steps] unfoldings reach [y = 0];
    [greatestCommonDivisor_eq] below is the source's recursion equation. *)
Fixpoint gcd_rec (fuel : nat) (x y : Z) : Z :=
  if y =? 0 then x
  else match fuel with
       | O => x
       | S fuel' => gcd_rec fuel' y (Z.rem x y)
       end.

Definition gcd_steps (x y : Z) : nat :=
  S (S (Z.to_nat (Z.log2 (Z.abs x) + Z.log2 (Z.abs y)))).

Definition greatestCommonDivisor (x y : Z) : Z :=
  gcd_rec (gcd_steps x y) x y.

Definition leastCommonMultiple (x y : Z) : completion Z :=
  bigint_div (x * y) (greatestCommonDivisor x y).

(** A count of loop passes that is made as it is used, so that a bound as
    large as [2 * |dividend|] costs nothing before the passes are run. *)
Inductive budget : Type :=
| Spent
| Step (rest : unit -> budget).

Fixpoint budget_of_pos (p : positive) (after : unit -> budget) : budget :=
  match p with
  | xH => Step after
  | xO p' => budget_of_pos p' (fun _ => budget_of_pos p' after)
  | xI p' => Step (fun _ => budget_of_pos p' (fun _ => budget_of_pos p' after))
  end.

Definition budget_of_Z (z : Z) : budget :=
  budget_of_pos (Z.to_pos z) (fun _ => Spent).

Fixpoint budget_length (b : budget) : nat :=
  match b with
  | Spent => O
  | Step rest => S (budget_length (rest tt))
  end.

(** The generator [primeFactors], run to its end: the list of what it
    yields.  [None] is the loop still running when the budget is spent. *)
Fixpoint primeFactors_loop (passes : budget) (dividend divisor : Z)
  : option (list Z) :=
  if dividend >=? 2 then
    match passes with
    | Spent => None
    | Step rest =>
        if Z.rem dividend divisor =? 0 then
          option_map (cons divisor)
            (primeFactors_loop (rest tt) (Z.quot dividend divisor) divisor)
        else primeFactors_loop (rest tt) dividend (divisor + 1)
    end
  else Some [].

(** Every pass of the loop lowers [2 * dividend - divisor], which stays
    positive while the loop runs ([primeFactors_loop_runs] below), so
    [2 * |dividend|] passes are enough and the default is never taken. *)
Definition primeFactors (dividend : Z) : list Z :=
  let dividend := if dividend <? 0 then - dividend else dividend in
  match primeFactors_loop (budget_of_Z (2 * dividend)) dividend 2 with
  | Some yielded => yielded
  | None => []
  end.

(** A JavaScript [Set] of bigints: the values in insertion order, each once. *)
Definition Set_has (s : list Z) (v : Z) : bool :=
  existsb (Z.eqb v) s.

Definition Set_add (s : list Z) (v : Z) : list Z :=
  if Set_has s v then s else s ++ [v].

Definition Set_from (iterable : list Z) : list Z :=
  fold_left Set_add iterable [].

Definition distinctPrimeFactors (dividend : Z) : list Z :=
  Set_from (primeFactors dividend).

(** The [for ... of] of [isTerminating], leaving at the first miss. *)
Fixpoint isTerminating_for (distinct : list Z) (factors : list Z) : bool :=
  match factors with
  | [] => true
  | primeFactor :: rest =>
      if negb (Set_has distinct primeFactor) then false
      else isTerminating_for distinct rest
  end.

Definition isTerminating (dividend divisor : Z) : bool :=
  let distinct := distinctPrimeFactors dividend in
  isTerminating_for distinct (primeFactors divisor).

(** ** The two classes and their constructors *)

(** The private fields [#numerator], [#denominator] behind their getters.
    Only the constructor makes a [Rational], so a live one has passed its
    range check: [Rational_ok]. *)
Record Rational : Type := mkRational { numerator : Z; denominator : Z }.

Record Decimal : Type := mkDecimal { digits : Z; scale : Z }.

Definition Rational_ok (r : Rational) : Prop := 0 < denominator r.

Definition Decimal_ok (d : Decimal) : Prop := 0 <= scale d.

(** [new Rational(numerator, denominator)]; the library passes both
    arguments at every call, so their defaults are not modelled. *)
Definition Rational_new (numerator denominator : IntegerLike)
  : completion Rational :=
  n <- Integer numerator ;;
  d <- Integer denominator ;;
  if d <=? 0 then
    Throw (RangeError
             ("Rational denominator must be greater than zero, received "
                ++ String_of denominator ++ ".")
             (Some ("denominator", denominator)))
  else Return (mkRational n d).

(** [new Decimal(digits, scale)]. *)
Definition Decimal_new (digits scale : IntegerLike) : completion Decimal :=
  n <- Integer digits ;;
  s <- Integer scale ;;
  if s <? 0 then
    Throw (RangeError
             ("Decimal scale must be greater than or equal to zero, received "
                ++ String_of scale ++ ".")
             (Some ("scale", scale)))
  else Return (mkDecimal n s).

(** ** rational.js *)

Definition Rational_toString (this : Rational) : string :=
  String_of_bigint (numerator this) ++ "/" ++ String_of_bigint (denominator this).

Definition Rational_times (this : Rational) (those : list Rational)
  : completion Rational :=
  let '(n, d) :=
    fold_left
      (fun '(n, d) that => (n * numerator that, d * denominator that))
      those (numerator this, denominator this) in
  Rational_new (IBigInt n) (IBigInt d).

(** The [for ... of] of [dividedBy]; [n] and [d] are its running
    [numerator] and [denominator]. *)
Fixpoint Rational_dividedBy_for (n d : Z) (those : list Rational)
  : completion (Z * Z) :=
  match those with
  | [] => Return (n, d)
  | that :: rest =>
      if numerator that >? 0 then
        Rational_dividedBy_for (n * denominator that) (d * numerator that) rest
      else if numerator that <? 0 then
        Rational_dividedBy_for
          (n * - denominator that) (d * - numerator that) rest
      else
        dividend <- Rational_new (IBigInt n) (IBigInt d) ;;
        Throw (RangeError
                 ("Rational cannot divide by zero, received "
                    ++ Rational_toString dividend ++ " and "
                    ++ Rational_toString that ++ ".")
                 None)
  end.

Definition Rational_dividedBy (this : Rational) (those : list Rational)
  : completion Rational :=
  nd <- Rational_dividedBy_for (numerator this) (denominator this) those ;;
  Rational_new (IBigInt (fst nd)) (IBigInt (snd nd)).

Definition Rational_simplify (this : Rational) : completion Rational :=
  let gcd := greatestCommonDivisor (numerator this) (denominator this) in
  n <- bigint_div (numerator this) gcd ;;
  d <- bigint_div (denominator this) gcd ;;
  Rational_new (IBigInt n) (IBigInt d).

Definition Rational_compare (this that : Rational)
  (predicate : Rational -> Rational -> bool) : completion bool :=
  lcm <- leastCommonMultiple (denominator this) (denominator that) ;;
  u <- bigint_div lcm (denominator this) ;;
  v <- bigint_div lcm (denominator that) ;;
  uu <- Rational_new (IBigInt u) (IBigInt u) ;;
  x <- Rational_times this [uu] ;;
  vv <- Rational_new (IBigInt v) (IBigInt v) ;;
  y <- Rational_times that [vv] ;;
  Return (predicate x y).

Definition Rational_equalTo (this that : Rational) : completion bool :=
  Rational_compare this that (fun x y => numerator x =? numerator y).

(** [string.split('/')]: the pieces between the separators, at least one. *)
Fixpoint split (separator : ascii) (s : string) : list string :=
  match s with
  | EmptyString => [EmptyString]
  | String c s' =>
      if Ascii.eqb c separator then EmptyString :: split separator s'
      else match split separator s' with
           | piece :: pieces => String c piece :: pieces
           | [] => [String c EmptyString]
           end
  end.

Definition Rational_fromString (str : string) : completion Rational :=
  let pieces := split "/" str in
  let numerator := hd EmptyString pieces in
  let denominator := nth 1 pieces "1" in
  n <- Integer (IString numerator) ;;
  d <- Integer (IString denominator) ;;
  Rational_new (IBigInt n) (IBigInt d).

(** The [while] of [toDecimal]; [limit] is [None] for [Infinity]. *)
Fixpoint Rational_toDecimal_while (fuel : nat) (denominator : Z)
  (limit : option Z) (digits remainder s : Z) : completion Z :=
  if negb (remainder =? 0)
     && match limit with None => true | Some limit => s <? limit end
  then
    match fuel with
    | O => OutOfFuel
    | S fuel' =>
        let digits := digits * 10 in
        q <- bigint_div (remainder * 10) denominator ;;
        let digits := digits + q in
        remainder <- bigint_rem (remainder * 10) denominator ;;
        Rational_toDecimal_while fuel' denominator limit digits remainder (s + 1)
    end
  else Return digits.

(** [toDecimal(scale = 16n)]: [None] is the argument left out. *)
Definition Rational_toDecimal (fuel : nat) (this : Rational)
  (scale : option IntegerLike) : completion Decimal :=
  let scale := match scale with Some scale => scale | None => IBigInt 16 end in
  limit <- (if isTerminating 10 (denominator this) then Return None
            else s <- Integer scale ;; Return (Some s)) ;;
  digits <- bigint_div (numerator this) (denominator this) ;;
  remainder <- bigint_rem (numerator this) (denominator this) ;;
  digits <- Rational_toDecimal_while fuel (denominator this) limit
              digits remainder 0 ;;
  Decimal_new (IBigInt digits) scale.

(** ** decimal.js *)

Definition Decimal_toScale (this : Decimal) (target : IntegerLike)
  : completion Decimal :=
  target <- Integer target ;;
  let difference := target - scale this in
  if difference >? 0 then
    p <- bigint_pow 10 difference ;;
    Decimal_new (IBigInt (digits this * p)) (IBigInt target)
  else if difference <? 0 then
    p <- bigint_pow 10 (- difference) ;;
    q <- bigint_div (digits this) p ;;
    Decimal_new (IBigInt q) (IBigInt target)
  else Return this.

Definition Decimal_compare (this that : Decimal)
  (predicate : Decimal -> Decimal -> bool) : completion bool :=
  let s := max (scale this) (scale that) in
  x <- Decimal_toScale this (IBigInt s) ;;
  y <- Decimal_toScale that (IBigInt s) ;;
  Return (predicate x y).

Definition Decimal_equalTo (this that : Decimal) : completion bool :=
  Decimal_compare this that (fun x y => digits x =? digits y).

(** The [while (scale > 0n)] of [toString], counting [scale] down as a
    [nat]: [digits.at(-1) ?? '0'] goes in front of [str] (the source's
    [string]),
    [digits.splice(-1, 1)] drops it, and the point goes in when the count
    reaches zero. *)
Fixpoint Decimal_toString_while (scale : nat) (str : string)
  (digits : list ascii) : string * list ascii :=
  match scale with
  | O => (str, digits)
  | S scale =>
      let str := String (last digits "0"%char) str in
      let digits := removelast digits in
      let str := match scale with
                 | O => String "." str
                 | S _ => str
                 end in
      Decimal_toString_while scale str digits
  end.

(** [toString] from the array [digits = [...String(this.digits)]] and the
    count [scale] on. *)
Definition Decimal_toString_from (digits : list ascii) (scale : nat) : string :=
  let '(str, digits) := Decimal_toString_while scale EmptyString digits in
  let digits :=
    match digits with
    | [] => digits ++ ["0"%char]
    | [c] => if Ascii.eqb c "-" then digits ++ ["0"%char] else digits
    | _ => digits
    end in
  string_of_list_ascii digits ++ str.

Definition Decimal_toString (this : Decimal) : string :=
  Decimal_toString_from
    (list_ascii_of_string (String_of_bigint (digits this)))
    (Z.to_nat (scale this)).

(** [s.replace('.', '')]: the first occurrence only. *)
Fixpoint removeFirst (c : ascii) (s : string) : string :=
  match s with
  | EmptyString => EmptyString
  | String c' s' => if Ascii.eqb c' c then s' else String c' (removeFirst c s')
  end.

(** [Integer] is given the Number [s.length - 1 - s.indexOf('.')] here: a
    small natural number, whose [String] is its decimal literal, the same
    as that of the bigint it becomes. *)
Definition Decimal_fromString (str : string) : completion Decimal :=
  let s := trim str in
  scale <- match index 0 "." s with
           | Some i => Integer (IBigInt (Z.of_nat (length s) - 1 - Z.of_nat i))
           | None => Return 0
           end ;;
  let s := removeFirst "." s in
  digits <- Integer (IString s) ;;
  Decimal_new (IBigInt digits) (IBigInt scale).

Definition Decimal_toRational (this : Decimal) : completion Rational :=
  p <- bigint_pow 10 (scale this) ;;
  Rational_new (IBigInt (digits this)) (IBigInt p).

(** [those.map(that => that.toRational())]. *)
Fixpoint map_toRational (those : list Decimal) : completion (list Rational) :=
  match those with
  | [] => Return []
  | that :: rest =>
      r <- Decimal_toRational that ;;
      rs <- map_toRational rest ;;
      Return (r :: rs)
  end.

Definition Decimal_dividedBy (this : Decimal) (those : list Decimal)
  : completion Rational :=
  r <- Decimal_toRational this ;;
  rs <- map_toRational those ;;
  Rational_dividedBy r rs.

(** ** rational.js: the other methods *)

(** The [for ... of] of [plus]; [n] and [d] are its running [numerator]
    and [denominator]. *)
Fixpoint Rational_plus_for (n d : Z) (those : list Rational)
  : completion (Z * Z) :=
  match those with
  | [] => Return (n, d)
  | that :: rest =>
      lcm <- leastCommonMultiple d (denominator that) ;;
      u <- bigint_div lcm d ;;
      v <- bigint_div lcm (denominator that) ;;
      Rational_plus_for (n * u + numerator that * v) (d * u) rest
  end.

Definition Rational_plus (this : Rational) (those : list Rational)
  : completion Rational :=
  nd <- Rational_plus_for (numerator this) (denominator this) those ;;
  Rational_new (IBigInt (fst nd)) (IBigInt (snd nd)).

(** The [for ... of] of [minus]. *)
Fixpoint Rational_minus_for (n d : Z) (those : list Rational)
  : completion (Z * Z) :=
  match those with
  | [] => Return (n, d)
  | that :: rest =>
      lcm <- leastCommonMultiple d (denominator that) ;;
      factor <- bigint_div lcm d ;;
      q <- bigint_div (numerator that * lcm) (denominator that) ;;
      Rational_minus_for (n * factor - q) (d * factor) rest
  end.

Definition Rational_minus (this : Rational) (those : list Rational)
  : completion Rational :=
  nd <- Rational_minus_for (numerator this) (denominator this) those ;;
  Rational_new (IBigInt (fst nd)) (IBigInt (snd nd)).

Definition Rational_inverse (this : Rational) : completion Rational :=
  if numerator this >=? 0 then
    Rational_new (IBigInt (denominator this)) (IBigInt (numerator this))
  else
    Rational_new (IBigInt (- denominator this)) (IBigInt (- numerator this)).

Definition Rational_negation (this : Rational) : completion Rational :=
  Rational_new (IBigInt (- numerator this)) (IBigInt (denominator this)).

Definition Rational_abs (this : Rational) : completion Rational :=
  Rational_new (IBigInt (abs (numerator this))) (IBigInt (denominator this)).

Definition Rational_sign (this : Rational) : Z := sign (numerator this).

Definition Rational_lessThan (this that : Rational) : completion bool :=
  Rational_compare this that (fun x y => numerator x <? numerator y).

Definition Rational_lessThanOrEqualTo (this that : Rational)
  : completion bool :=
  Rational_compare this that (fun x y => numerator x <=? numerator y).

Definition Rational_greaterThan (this that : Rational) : completion bool :=
  Rational_compare this that (fun x y => numerator x >? numerator y).

Definition Rational_greaterThanEqualTo (this that : Rational)
  : completion bool :=
  Rational_compare this that (fun x y => numerator x >=? numerator y).

Definition Rational_max (this that : Rational) : completion Rational :=
  greater <- Rational_greaterThan this that ;;
  Return (if greater then this else that).

Definition Rational_min (this that : Rational) : completion Rational :=
  less <- Rational_lessThan this that ;;
  Return (if less then this else that).

(** The plain object of [toJSON] and [fromJSON]: two properties, strings
    when [toJSON] makes it, any [IntegerLike] when [fromJSON] reads it. *)
Record RationalJSON : Type :=
  mkRationalJSON { json_numerator : IntegerLike;
                   json_denominator : IntegerLike }.

Definition Rational_toJSON (this : Rational) : RationalJSON :=
  mkRationalJSON (IString (String_of_bigint (numerator this)))
                 (IString (String_of_bigint (denominator this))).

Definition Rational_fromJSON (json : RationalJSON) : completion Rational :=
  n <- Integer (json_numerator json) ;;
  d <- Integer (json_denominator json) ;;
  Rational_new (IBigInt n) (IBigInt d).

(** ** decimal.js: the other methods *)

(** The [for ... of] of [plus]; [n] and [s] are its running [digits] and
    [scale]. *)
Fixpoint Decimal_plus_for (n s : Z) (those : list Decimal)
  : completion (Z * Z) :=
  match those with
  | [] => Return (n, s)
  | that :: rest =>
      if s >? scale that then
        p <- bigint_pow 10 (s - scale that) ;;
        Decimal_plus_for (n + digits that * p) s rest
      else
        p <- bigint_pow 10 (scale that - s) ;;
        Decimal_plus_for (n * p + digits that) (scale that) rest
  end.

Definition Decimal_plus (this : Decimal) (those : list Decimal)
  : completion Decimal :=
  ns <- Decimal_plus_for (digits this) (scale this) those ;;
  Decimal_new (IBigInt (fst ns)) (IBigInt (snd ns)).

(** The [for ... of] of [minus]. *)
Fixpoint Decimal_minus_for (n s : Z) (those : list Decimal)
  : completion (Z * Z) :=
  match those with
  | [] => Return (n, s)
  | that :: rest =>
      if s >? scale that then
        p <- bigint_pow 10 (s - scale that) ;;
        Decimal_minus_for (n - digits that * p) s rest
      else
        p <- bigint_pow 10 (scale that - s) ;;
        Decimal_minus_for (n * p - digits that) (scale that) rest
  end.

Definition Decimal_minus (this : Decimal) (those : list Decimal)
  : completion Decimal :=
  ns <- Decimal_minus_for (digits this) (scale this) those ;;
  Decimal_new (IBigInt (fst ns)) (IBigInt (snd ns)).

Definition Decimal_times (this : Decimal) (those : list Decimal)
  : completion Decimal :=
  let '(n, s) :=
    fold_left
      (fun '(n, s) that => (n * digits that, s + scale that))
      those (digits this, scale this) in
  Decimal_new (IBigInt n) (IBigInt s).

(** The [while] of [simplify]; every pass lowers [scale], so [scale]
    passes are enough ([Decimal_simplify_while_runs] below). *)
Fixpoint Decimal_simplify_while (passes : budget) (n s : Z) : option (Z * Z) :=
  if (s >? 0) && (Z.rem n 10 =? 0) then
    match passes with
    | Spent => None
    | Step rest => Decimal_simplify_while (rest tt) (Z.quot n 10) (s - 1)
    end
  else Some (n, s).

Definition Decimal_simplify (this : Decimal) : completion Decimal :=
  match Decimal_simplify_while (budget_of_Z (scale this))
          (digits this) (scale this) with
  | Some (n, s) => Decimal_new (IBigInt n) (IBigInt s)
  | None => OutOfFuel
  end.

Definition Decimal_inverse (this : Decimal) : completion Rational :=
  r <- Decimal_toRational this ;;
  Rational_inverse r.

Definition Decimal_negation (this : Decimal) : completion Decimal :=
  Decimal_new (IBigInt (- digits this)) (IBigInt (scale this)).

Definition Decimal_abs (this : Decimal) : completion Decimal :=
  Decimal_new (IBigInt (abs (digits this))) (IBigInt (scale this)).

Definition Decimal_sign (this : Decimal) : Z := sign (digits this).

Definition Decimal_lessThan (this that : Decimal) : completion bool :=
  Decimal_compare this that (fun x y => digits x <? digits y).

Definition Decimal_lessThanOrEqualTo (this that : Decimal) : completion bool :=
  Decimal_compare this that (fun x y => digits x <=? digits y).

Definition Decimal_greaterThan (this that : Decimal) : completion bool :=
  Decimal_compare this that (fun x y => digits x >? digits y).

Definition Decimal_greaterThanEqualTo (this that : Decimal)
  : completion bool :=
  Decimal_compare this that (fun x y => digits x >=? digits y).

Definition Decimal_max (this that : Decimal) : completion Decimal :=
  greater <- Decimal_greaterThan this that ;;
  Return (if greater then this else that).

Definition Decimal_min (this that : Decimal) : completion Decimal :=
  less <- Decimal_lessThan this that ;;
  Return (if less then this else that).

Record DecimalJSON : Type :=
  mkDecimalJSON { json_digits : IntegerLike; json_scale : IntegerLike }.

Definition Decimal_toJSON (this : Decimal) : DecimalJSON :=
  mkDecimalJSON (IString (String_of_bigint (digits this)))
                (IString (String_of_bigint (scale this))).

Definition Decimal_fromJSON (json : DecimalJSON) : completion Decimal :=
  n <- Integer (json_digits json) ;;
  s <- Integer (json_scale json) ;;
  Decimal_new (IBigInt n) (IBigInt s).

(** ** Vocabulary of the statements *)

(** A string with no white space in it (what [trim] leaves alone). *)
Fixpoint noWhiteSpace (s : string) : bool :=
  match s with
  | EmptyString => true
  | String c s' => negb (isWhiteSpace c) && noWhiteSpace s'
  end.

(** The error [dividedBy] throws on a zero divisor. *)
Definition divideByZero (dividend divisor : Rational) : exn :=
  RangeError
    ("Rational cannot divide by zero, received "
       ++ Rational_toString dividend ++ " and "
       ++ Rational_toString divisor ++ ".")
    None.

Definition nonZero (that : Rational) : Prop := numerator that <> 0.

(** The numbers the two representations stand for. *)
Definition Rational_value (r : Rational) : Q :=
  (inject_Z (numerator r) / inject_Z (denominator r))%Q.

Definition Decimal_value (d : Decimal) : Q :=
  (inject_Z (digits d) / inject_Z (10 ^ scale d))%Q.

(** What the loop of [primeFactors] keeps: nothing from [2] up to the
    candidate divides what is left of the dividend. *)
Definition sieved (dividend divisor : Z) : Prop :=
  forall k, 2 <= k < divisor -> ~ (k | dividend).

(** The canonical form of [toString], in the words of the specification:
    the point goes [scale] digits from the right of the digits of [text],
    zeros are put on the left as needed, one more when nothing would stand
    before the point, and the sign stays in front. *)
Definition canonicalForm_spec (text : list ascii) (scale : nat) : list ascii :=
  let '(sign, magnitude) :=
    match text with
    | c :: magnitude =>
        if Ascii.eqb c "-" then (["-"%char], magnitude) else ([], text)
    | [] => ([], text)
    end in
  let padded :=
    repeat "0"%char (S scale - List.length magnitude) ++ magnitude in
  let whole := firstn (List.length padded - scale) padded in
  let fraction := skipn (List.length padded - scale) padded in
  sign ++ whole ++ match scale with
                   | O => []
                   | S _ => "."%char :: fraction
                   end.

(** The [scale] last characters of [digits], with the zeros the loop of
    [toString] makes up when [digits] runs out. *)
Definition taken (scale : nat) (digits : list ascii) : list ascii :=
  repeat "0"%char (scale - List.length digits)
    ++ skipn (List.length digits - scale) digits.

(** The text of a bigint that is not negative starts with a digit, not
    with the sign. *)
Definition unsignedText (text : list ascii) : Prop :=
  exists c t, text = c :: t /\ Ascii.eqb c "-" = false.

(** How many digits the decimal literal of [|z|] has. *)
Definition digitCount (z : Z) : nat :=
  List.length (list_ascii_of_string (String_of_bigint (Z.abs z))).

(** The sum and the product of the values of a list of Rationals. *)
Definition Rational_sum (those : list Rational) : Q :=
  fold_right (fun that total => (Rational_value that + total)%Q) 0%Q those.

Definition Rational_product (those : list Rational) : Q :=
  fold_right (fun that total => (Rational_value that * total)%Q) 1%Q those.

(** The least common multiple of [d] and the denominators of a list. *)
Definition commonDenominator (d : Z) (those : list Rational) : Z :=
  fold_left (fun d that => Z.lcm d (denominator that)) those d.

(** A string in which [c] does not occur. *)
Fixpoint without (c : ascii) (s : string) : bool :=
  match s with
  | EmptyString => true
  | String c' s' => negb (Ascii.eqb c' c) && without c s'
  end.

(** The sum and the product of the values of a list of Decimals, and the
    largest of [s] and their scales. *)
Definition Decimal_sum (those : list Decimal) : Q :=
  fold_right (fun that total => (Decimal_value that + total)%Q) 0%Q those.

Definition Decimal_product (those : list Decimal) : Q :=
  fold_right (fun that total => (Decimal_value that * total)%Q) 1%Q those.

Definition largestScale (s : Z) (those : list Decimal) : Z :=
  fold_left (fun s that => Z.max s (scale that)) those s.

(** A character that is a decimal digit. *)
Definition isDigit (c : ascii) : Prop :=
  In c (list_ascii_of_string "0123456789").

(** [k] zeros in front of a decimal numeral. *)
Definition leadingZeros (k : nat) (u : Decimal.uint) : Decimal.uint :=
  Nat.iter k Decimal.D0 u.

(** The sign in front of a magnitude, in text and in value. *)
Definition signText (negative : bool) : list ascii :=
  if negative then ["-"%char] else [].

Definition signed (negative : bool) (z : Z) : Z :=
  if negative then - z else z.

(** * Properties *)

(** ** [Integer] on a bigint

    [String(z)] is a decimal literal with no white space around it, and
    [BigInt] reads it back. *)

Lemma trimEnd_noWhiteSpace s : noWhiteSpace s = true -> trimEnd s = s.
Proof.
  induction s as [|c s IH]; simpl; [reflexivity|].
  intros H. apply andb_prop in H as [Hc Hs].
  rewrite (IH Hs). destruct s; [|reflexivity].
  apply negb_true_iff in Hc. now rewrite Hc.
Qed.

Lemma trim_noWhiteSpace s : noWhiteSpace s = true -> trim s = s.
Proof.
  intros H. unfold trim.
  replace (trimStart s) with s; [now apply trimEnd_noWhiteSpace|].
  destruct s as [|c s]; [reflexivity|]. simpl in *.
  apply andb_prop in H as [Hc _]. apply negb_true_iff in Hc. now rewrite Hc.
Qed.

Lemma noWhiteSpace_uint d : noWhiteSpace (NilEmpty.string_of_uint d) = true.
Proof. induction d; simpl; auto. Qed.

Lemma StrIntegerLiteral_uint d :
  d <> Decimal.Nil ->
  StrIntegerLiteral (NilEmpty.string_of_uint d) = Some (Z.of_uint d).
Proof.
  intros Hd.
  assert (E : StrIntegerLiteral (NilEmpty.string_of_uint d)
              = decimalDigits (NilEmpty.string_of_uint d))
    by (destruct d as [|d|d|d|d|d|d|d|d|d|d]; [contradiction|..];
        destruct d; reflexivity).
  rewrite E. unfold decimalDigits.
  rewrite NilEmpty.usu.
  destruct d; [contradiction|reflexivity..].
Qed.

Lemma uint_of_pos_not_Nil p : Pos.to_uint p <> Decimal.Nil.
Proof.
  intros E. pose proof (DecimalPos.Unsigned.of_to p) as H.
  rewrite E in H. discriminate H.
Qed.

Lemma Integer_literal v z :
  String_of v <> EmptyString ->
  trim (String_of v) = String_of v ->
  StrIntegerLiteral (String_of v) = Some z ->
  Integer v = Return z.
Proof.
  intros Hne Htrim Hlit. unfold Integer. rewrite Htrim.
  destruct (String_of v) as [|c s] eqn:E; [contradiction|].
  unfold BigInt_of_string. rewrite Htrim, Hlit. reflexivity.
Qed.

Lemma Integer_bigint z : Integer (IBigInt z) = Return z.
Proof.
  apply Integer_literal; simpl; unfold String_of_bigint;
    destruct z as [|p|p]; try reflexivity; try discriminate; simpl.
  - unfold NilZero.string_of_uint.
    destruct (Pos.to_uint p) eqn:E; discriminate.
  - apply trim_noWhiteSpace. unfold NilZero.string_of_uint.
    destruct (Pos.to_uint p) eqn:E; [reflexivity|rewrite <- E..];
      apply noWhiteSpace_uint.
  - apply trim_noWhiteSpace. simpl. unfold NilZero.string_of_uint.
    destruct (Pos.to_uint p) eqn:E; [reflexivity|rewrite <- E..];
      apply noWhiteSpace_uint.
  - pose proof (uint_of_pos_not_Nil p) as Hn.
    unfold NilZero.string_of_uint.
    replace (match Pos.to_uint p with
             | Decimal.Nil => "0"
             | _ => NilEmpty.string_of_uint (Pos.to_uint p)
             end) with (NilEmpty.string_of_uint (Pos.to_uint p))
      by (destruct (Pos.to_uint p); [contradiction|reflexivity..]).
    rewrite (StrIntegerLiteral_uint _ Hn).
    unfold Z.of_uint. now rewrite DecimalPos.Unsigned.of_to.
  - pose proof (uint_of_pos_not_Nil p) as Hn.
    unfold NilZero.string_of_uint.
    replace (match Pos.to_uint p with
             | Decimal.Nil => "0"
             | _ => NilEmpty.string_of_uint (Pos.to_uint p)
             end) with (NilEmpty.string_of_uint (Pos.to_uint p))
      by (destruct (Pos.to_uint p); [contradiction|reflexivity..]).
    change (option_map Z.opp
              (decimalDigits (NilEmpty.string_of_uint (Pos.to_uint p)))
            = Some (Z.neg p)).
    assert (E : decimalDigits (NilEmpty.string_of_uint (Pos.to_uint p))
                = Some (Z.of_uint (Pos.to_uint p))).
    { unfold decimalDigits. rewrite NilEmpty.usu.
      destruct (Pos.to_uint p); [contradiction|reflexivity..]. }
    rewrite E. simpl. unfold Z.of_uint.
    now rewrite DecimalPos.Unsigned.of_to.
Qed.

(** ** The constructors *)

Lemma Rational_new_bigint n d :
  Rational_new (IBigInt n) (IBigInt d) =
  if d <=? 0 then
    Throw (RangeError
             ("Rational denominator must be greater than zero, received "
                ++ String_of_bigint d ++ ".")
             (Some ("denominator", IBigInt d)))
  else Return (mkRational n d).
Proof. unfold Rational_new. now rewrite !Integer_bigint. Qed.

Lemma Decimal_new_bigint n s :
  Decimal_new (IBigInt n) (IBigInt s) =
  if s <? 0 then
    Throw (RangeError
             ("Decimal scale must be greater than or equal to zero, received "
                ++ String_of_bigint s ++ ".")
             (Some ("scale", IBigInt s)))
  else Return (mkDecimal n s).
Proof. unfold Decimal_new. now rewrite !Integer_bigint. Qed.

Lemma Rational_new_ok n d :
  0 < d -> Rational_new (IBigInt n) (IBigInt d) = Return (mkRational n d).
Proof.
  intros H. rewrite Rational_new_bigint.
  destruct (Z.leb_spec d 0); [lia|reflexivity].
Qed.

Lemma Decimal_new_ok n s :
  0 <= s -> Decimal_new (IBigInt n) (IBigInt s) = Return (mkDecimal n s).
Proof.
  intros H. rewrite Decimal_new_bigint.
  destruct (Z.ltb_spec s 0); [lia|reflexivity].
Qed.

(** Whatever the constructor returns satisfies the class invariant. *)
Lemma Rational_new_Rational_ok a b r :
  Rational_new a b = Return r -> Rational_ok r.
Proof.
  unfold Rational_new, bind, Rational_ok.
  destruct (Integer a); try discriminate.
  destruct (Integer b) as [d| |]; try discriminate.
  destruct (Z.leb_spec d 0); [discriminate|].
  intros [= <-]. simpl. lia.
Qed.

Lemma Decimal_new_Decimal_ok a b d :
  Decimal_new a b = Return d -> Decimal_ok d.
Proof.
  unfold Decimal_new, bind, Decimal_ok.
  destruct (Integer a); try discriminate.
  destruct (Integer b) as [s| |]; try discriminate.
  destruct (Z.ltb_spec s 0); [discriminate|].
  intros [= <-]. simpl. lia.
Qed.

(** C8. For arguments that [Integer] reads as the integers [n] and [v]
    (every bigint is one, [Integer_bigint]): [new Rational(a, b)] throws
    exactly when [v <= 0], and [new Decimal(a, b)] exactly when [v < 0]; what
    is thrown is a [RangeError] whose message and [cause] hold the rejected
    argument, and otherwise the object with the two fields is returned. *)
Theorem construction_invariants (a b : IntegerLike) (n v : Z) :
  Integer a = Return n -> Integer b = Return v ->
  (throws (Rational_new a b) <-> v <= 0)
  /\ Rational_new a b =
     (if v <=? 0 then
        Throw (RangeError
                 ("Rational denominator must be greater than zero, received "
                    ++ String_of b ++ ".")
                 (Some ("denominator", b)))
      else Return (mkRational n v))
  /\ (throws (Decimal_new a b) <-> v < 0)
  /\ Decimal_new a b =
     (if v <? 0 then
        Throw (RangeError
                 ("Decimal scale must be greater than or equal to zero, received "
                    ++ String_of b ++ ".")
                 (Some ("scale", b)))
      else Return (mkDecimal n v)).
Proof.
  intros Ha Hb. unfold Rational_new, Decimal_new, throws.
  rewrite Ha, Hb. simpl.
  repeat split; try reflexivity.
  - destruct (Z.leb_spec v 0); [trivial|]. intros [e He]. discriminate He.
  - intros H. destruct (Z.leb_spec v 0); [eauto|lia].
  - destruct (Z.ltb_spec v 0); [trivial|]. intros [e He]. discriminate He.
  - intros H. destruct (Z.ltb_spec v 0); [eauto|lia].
Qed.

Lemma construction_invariants_witness :
  Integer (IBigInt 7) = Return 7 /\ Integer (IBigInt (-2)) = Return (-2)
  /\ (throws (Rational_new (IBigInt 7) (IBigInt (-2))) <-> -2 <= 0)
  /\ Rational_new (IBigInt 7) (IBigInt (-2))
     = Throw (RangeError
                "Rational denominator must be greater than zero, received -2."
                (Some ("denominator", IBigInt (-2))))
  /\ (throws (Decimal_new (IBigInt 7) (IBigInt (-2))) <-> -2 < 0)
  /\ Decimal_new (IBigInt 7) (IBigInt (-2))
     = Throw (RangeError
                "Decimal scale must be greater than or equal to zero, received -2."
                (Some ("scale", IBigInt (-2)))).
Proof.
  split; [reflexivity|]. split; [reflexivity|].
  exact (construction_invariants (IBigInt 7) (IBigInt (-2)) 7 (-2)
           eq_refl eq_refl).
Defined.

(** ** The integer utilities *)

(** C2. [min] has the comparison of [max]: it returns the larger argument,
    so [min(3, 5)] is [5] and not [3]. *)
Theorem min_returns_the_larger :
  min 3 5 = 5 /\ forall x y, min x y = Z.max x y.
Proof.
  split; [reflexivity|]. intros x y. unfold min.
  rewrite Z.gtb_ltb. destruct (Z.ltb_spec y x); lia.
Qed.

(** Dividing by something not larger at least halves what remains. *)
Lemma rem_halves a b :
  b <> 0 -> Z.abs b <= Z.abs a -> Z.rem a b <> 0 ->
  Z.log2 (Z.abs (Z.rem a b)) < Z.log2 (Z.abs a).
Proof.
  intros Hb Hle Hr.
  rewrite <- Z.rem_abs by assumption.
  assert (HB : 0 < Z.abs b) by lia.
  assert (HR : 0 < Z.rem (Z.abs a) (Z.abs b))
    by (rewrite Z.rem_abs by assumption; lia).
  pose proof (Z.rem_bound_pos (Z.abs a) (Z.abs b) ltac:(lia) HB) as Hbound.
  pose proof (Z.quot_rem' (Z.abs a) (Z.abs b)) as E.
  pose proof (Z.quot_str_pos (Z.abs a) (Z.abs b) ltac:(lia)) as Hq.
  revert HR Hbound E Hq.
  generalize (Z.rem (Z.abs a) (Z.abs b)), (Z.quot (Z.abs a) (Z.abs b)).
  intros r q HR Hbound E Hq.
  assert (H2 : 2 * r < Z.abs a) by nia.
  pose proof (Z.log2_nonneg r).
  enough (Z.log2 r + 1 <= Z.log2 (Z.abs a)) by lia.
  apply Z.log2_le_pow2; [lia|].
  rewrite Z.pow_add_r, Z.pow_1_r by lia.
  pose proof (proj2 (Z.log2_le_pow2 r (Z.log2 r) HR) (Z.le_refl _)). lia.
Qed.

Lemma gcd_rec_fuel f1 : forall f2 x y,
  Z.abs y <= Z.abs x ->
  (y = 0 \/ Z.log2 (Z.abs x) + Z.log2 (Z.abs y) < Z.of_nat f1) ->
  (y = 0 \/ Z.log2 (Z.abs x) + Z.log2 (Z.abs y) < Z.of_nat f2) ->
  gcd_rec f1 x y = gcd_rec f2 x y.
Proof.
  induction f1 as [|f1 IH]; intros f2 x y Hle H1 H2.
  - destruct H1 as [->|H1]; [now destruct f2|].
    pose proof (Z.log2_nonneg (Z.abs x)). pose proof (Z.log2_nonneg (Z.abs y)).
    lia.
  - destruct f2 as [|f2].
    + destruct H2 as [->|H2]; [reflexivity|].
      pose proof (Z.log2_nonneg (Z.abs x)). pose proof (Z.log2_nonneg (Z.abs y)).
      lia.
    + simpl. destruct (Z.eqb_spec y 0) as [|Hy]; [reflexivity|].
      pose proof (Z.rem_bound_abs x y Hy).
      destruct (Z.eq_dec (Z.rem x y) 0) as [E|Hr].
      * apply IH; [lia|now left..].
      * pose proof (rem_halves x y Hy Hle Hr).
        apply IH; [lia|right; lia..].
Qed.

Lemma gcd_rec_S fuel x y :
  gcd_rec (S fuel) x y = if y =? 0 then x else gcd_rec fuel y (Z.rem x y).
Proof. reflexivity. Qed.

(** The recursion equation of the source. *)
Lemma greatestCommonDivisor_eq x y :
  greatestCommonDivisor x y =
  if y =? 0 then x else greatestCommonDivisor y (Z.rem x y).
Proof.
  unfold greatestCommonDivisor, gcd_steps. rewrite gcd_rec_S.
  destruct (Z.eqb_spec y 0) as [|Hy]; [reflexivity|].
  pose proof (Z.rem_bound_abs x y Hy) as Hb.
  destruct (Z.eq_dec (Z.rem x y) 0) as [E|Hr].
  - apply gcd_rec_fuel; [lia|now left..].
  - apply gcd_rec_fuel; [lia|right..].
    + assert (Z.log2 (Z.abs (Z.rem x y)) <= Z.log2 (Z.abs x)).
      { destruct (Z_le_gt_dec (Z.abs y) (Z.abs x)) as [Hle|Hgt].
        - pose proof (rem_halves x y Hy Hle Hr). lia.
        - rewrite <- Z.rem_abs, Z.rem_small by lia. lia. }
      pose proof (Z.log2_nonneg (Z.abs x)). pose proof (Z.log2_nonneg (Z.abs y)).
      lia.
    + pose proof (Z.log2_nonneg (Z.abs y)).
      pose proof (Z.log2_nonneg (Z.abs (Z.rem x y))). lia.
Qed.

Lemma greatestCommonDivisor_nonneg x y :
  0 <= x -> 0 <= y -> greatestCommonDivisor x y = Z.gcd x y.
Proof.
  intros Hx Hy. revert x Hx. generalize Hy. pattern y.
  apply Z_lt_induction; [|assumption].
  clear y Hy. intros y IH Hy x Hx.
  rewrite greatestCommonDivisor_eq.
  destruct (Z.eqb_spec y 0) as [->|Hy0].
  - rewrite Z.gcd_0_r. lia.
  - pose proof (Z.rem_bound_pos x y ltac:(lia) ltac:(lia)).
    rewrite IH by lia.
    rewrite Z.rem_mod_nonneg by lia.
    rewrite (Z.gcd_comm y), Z.gcd_mod by lia. apply Z.gcd_comm.
Qed.

(** ** Rational: equality *)

Lemma leastCommonMultiple_pos x y :
  0 < x -> 0 < y ->
  leastCommonMultiple x y = Return (Z.quot (x * y) (Z.gcd x y)).
Proof.
  intros Hx Hy. unfold leastCommonMultiple, bigint_div.
  rewrite greatestCommonDivisor_nonneg by lia.
  destruct (Z.eqb_spec (Z.gcd x y) 0) as [E|]; [|reflexivity].
  apply Z.gcd_eq_0_l in E. lia.
Qed.

Lemma Rational_times_one this that :
  Rational_times this [that] =
  Rational_new (IBigInt (numerator this * numerator that))
               (IBigInt (denominator this * denominator that)).
Proof. reflexivity. Qed.

(** C5 as amended. For [0 < d] and a positive factor [k], both
    [Rational(n, d)] and [Rational(n*k, d*k)] are constructed and [equalTo]
    returns [true] on them. *)
Theorem equalTo_representation_invariant (n d k : Z) :
  0 < d -> 0 < k ->
  (a <- Rational_new (IBigInt n) (IBigInt d) ;;
   b <- Rational_new (IBigInt (n * k)) (IBigInt (d * k)) ;;
   Rational_equalTo a b) = Return true.
Proof.
  intros Hd Hk.
  rewrite !Rational_new_ok by lia. simpl.
  unfold Rational_equalTo, Rational_compare. simpl.
  rewrite leastCommonMultiple_pos by lia.
  rewrite Z.gcd_mul_diag_l by lia.
  replace (Z.quot (d * (d * k)) d) with (d * k)
    by (rewrite (Z.mul_comm d (d * k)), Z.quot_mul; lia).
  unfold bigint_div.
  destruct (Z.eqb_spec d 0); [lia|].
  destruct (Z.eqb_spec (d * k) 0); [lia|]. simpl.
  rewrite (Z.mul_comm d k), Z.quot_mul, Z.quot_same by lia.
  rewrite !Rational_new_ok by lia. simpl.
  rewrite !Rational_times_one. simpl.
  rewrite !Rational_new_ok by lia. simpl.
  f_equal. apply Z.eqb_eq. ring.
Qed.

Lemma equalTo_representation_invariant_witness :
  (a <- Rational_new (IBigInt 1) (IBigInt 2) ;;
   b <- Rational_new (IBigInt (1 * 3)) (IBigInt (2 * 3)) ;;
   Rational_equalTo a b) = Return true.
Proof. apply (equalTo_representation_invariant 1 2 3); lia. Defined.

(** C5 as stated fails for a negative factor: [Rational(1*-1, 2*-1)] is
    refused by the constructor, so the comparison is never reached. *)
Lemma equalTo_negative_factor_throws :
  (a <- Rational_new (IBigInt 1) (IBigInt 2) ;;
   b <- Rational_new (IBigInt (1 * -1)) (IBigInt (2 * -1)) ;;
   Rational_equalTo a b)
  = Throw (RangeError
             "Rational denominator must be greater than zero, received -2."
             (Some ("denominator", IBigInt (-2))))
  /\ (a <- Rational_new (IBigInt 1) (IBigInt 2) ;;
      b <- Rational_new (IBigInt (1 * -1)) (IBigInt (2 * -1)) ;;
      Rational_equalTo a b) <> Return true.
Proof. split; [reflexivity|discriminate]. Qed.

(** ** Rational: division *)

Lemma Rational_dividedBy_for_spec those : forall n d,
  0 < d -> Forall Rational_ok those ->
  match Rational_dividedBy_for n d those with
  | Return (n', d') => 0 < d' /\ Forall nonZero those
  | Throw e =>
      exists before zero after n' d',
        those = before ++ zero :: after
        /\ Forall nonZero before /\ numerator zero = 0
        /\ Rational_dividedBy_for n d before = Return (n', d') /\ 0 < d'
        /\ e = divideByZero (mkRational n' d') zero
  | OutOfFuel => False
  end.
Proof.
  induction those as [|that rest IH]; intros n d Hd Hok; simpl.
  - split; [assumption|constructor].
  - inversion Hok as [|? ? Hthat Hrest]; subst. unfold Rational_ok in Hthat.
    destruct (Z.gtb_spec (numerator that) 0) as [Hpos|Hle];
      [|destruct (Z.ltb_spec (numerator that) 0) as [Hneg|Hge]].
    + specialize (IH (n * denominator that) (d * numerator that)
                     ltac:(nia) Hrest).
      destruct (Rational_dividedBy_for _ _ rest) as [[n' d']|e|]; [| |easy].
      * destruct IH as [? ?]. split; [assumption|].
        constructor; [unfold nonZero; lia|assumption].
      * destruct IH as (before & zero & after & n' & d' & -> & Hb & Hz & Hrun & ? & ->).
        exists (that :: before), zero, after, n', d'.
        repeat split; try assumption.
        -- constructor; [unfold nonZero; lia|assumption].
        -- simpl. destruct (Z.gtb_spec (numerator that) 0); [assumption|lia].
    + specialize (IH (n * - denominator that) (d * - numerator that)
                     ltac:(nia) Hrest).
      destruct (Rational_dividedBy_for _ _ rest) as [[n' d']|e|]; [| |easy].
      * destruct IH as [? ?]. split; [assumption|].
        constructor; [unfold nonZero; lia|assumption].
      * destruct IH as (before & zero & after & n' & d' & -> & Hb & Hz & Hrun & ? & ->).
        exists (that :: before), zero, after, n', d'.
        repeat split; try assumption.
        -- constructor; [unfold nonZero; lia|assumption].
        -- simpl. destruct (Z.gtb_spec (numerator that) 0); [lia|].
           destruct (Z.ltb_spec (numerator that) 0); [assumption|lia].
    + rewrite Rational_new_ok by assumption. simpl.
      exists [], that, rest, n, d.
      repeat split; try assumption; try constructor. lia.
Qed.

(** C7. For a [Rational] and a list of [Rational] divisors, [dividedBy]
    throws if and only if some divisor has numerator zero.  When it throws,
    the error is the division-by-zero [RangeError] naming the quotient by the
    divisors before the first zero one (the dividend so far) and that zero
    divisor; and it never ends in any other way than returning a [Rational]
    when all numerators are non-zero. *)
Theorem dividedBy_zero_divisor (this : Rational) (those : list Rational) :
  Rational_ok this -> Forall Rational_ok those ->
  (throws (Rational_dividedBy this those)
   <-> Exists (fun that => numerator that = 0) those)
  /\ match Rational_dividedBy this those with
     | Return quotient => Forall nonZero those /\ Rational_ok quotient
     | Throw e =>
         exists before zero after dividend,
           those = before ++ zero :: after
           /\ Forall nonZero before /\ numerator zero = 0
           /\ Rational_dividedBy this before = Return dividend
           /\ e = divideByZero dividend zero
     | OutOfFuel => False
     end.
Proof.
  intros Hthis Hthose.
  pose proof (Rational_dividedBy_for_spec those (numerator this)
                (denominator this) Hthis Hthose) as H.
  unfold Rational_dividedBy, throws.
  destruct (Rational_dividedBy_for _ _ those) as [[n' d']|e|]; simpl;
    [| |contradiction].
  - destruct H as [Hd' Hnz]. rewrite Rational_new_ok by assumption.
    split; [split|split; [assumption|exact Hd']].
    + intros [e He]. discriminate He.
    + intros Hex. apply Exists_exists in Hex as (that & Hin & Hz).
      rewrite Forall_forall in Hnz. now apply Hnz in Hin.
  - destruct H as (before & zero & after & n' & d' & -> & Hb & Hz & Hrun & Hd' & ->).
    split; [split|].
    + intros _. apply Exists_app. right. now constructor.
    + eauto.
    + exists before, zero, after, (mkRational n' d').
      repeat split; try assumption.
      rewrite Hrun. simpl. now apply Rational_new_ok.
Qed.

Lemma dividedBy_zero_divisor_witness :
  Rational_ok (mkRational 1 2)
  /\ Forall Rational_ok [mkRational (-3) 4; mkRational 0 7; mkRational 5 1]
  /\ Rational_dividedBy (mkRational 1 2)
       [mkRational (-3) 4; mkRational 0 7; mkRational 5 1]
     = Throw (divideByZero (mkRational (-4) 6) (mkRational 0 7))
  /\ (throws (Rational_dividedBy (mkRational 1 2)
                [mkRational (-3) 4; mkRational 0 7; mkRational 5 1])
      <-> Exists (fun that => numerator that = 0)
            [mkRational (-3) 4; mkRational 0 7; mkRational 5 1]).
Proof.
  assert (Hthis : Rational_ok (mkRational 1 2)) by (unfold Rational_ok; simpl; lia).
  assert (Hthose : Forall Rational_ok
                     [mkRational (-3) 4; mkRational 0 7; mkRational 5 1])
    by (repeat constructor; unfold Rational_ok; simpl; lia).
  split; [exact Hthis|]. split; [exact Hthose|]. split; [reflexivity|].
  exact (proj1 (dividedBy_zero_divisor _ _ Hthis Hthose)).
Defined.

(** The zero-divisor scenario: [Rational(1,1).dividedBy(Rational(0,1))]. *)
Example dividedBy_zero_example :
  Rational_dividedBy (mkRational 1 1) [mkRational 0 1]
  = Throw (RangeError
             "Rational cannot divide by zero, received 1/1 and 0/1." None).
Proof. reflexivity. Qed.

(** ** Decimal: division *)

Lemma inject_Z_nonzero z : z <> 0 -> ~ (inject_Z z == 0)%Q.
Proof. intros Hz E. apply Hz. unfold Qeq in E. simpl in E. lia. Qed.

Lemma Decimal_toRational_ok a :
  Decimal_ok a ->
  Decimal_toRational a = Return (mkRational (digits a) (10 ^ scale a)).
Proof.
  intros Ha. unfold Decimal_toRational, bigint_pow. unfold Decimal_ok in Ha.
  destruct (Z.ltb_spec (scale a) 0); [lia|]. simpl.
  apply Rational_new_ok. now apply Z.pow_pos_nonneg.
Qed.

Lemma toRational_value a :
  (Rational_value (mkRational (digits a) (10 ^ scale a)) == Decimal_value a)%Q.
Proof. reflexivity. Qed.

(** C6. For Decimals [a] and [b] with [b] non-zero, [a.dividedBy(b)] is
    [a.toRational().dividedBy(b.toRational())], and it returns a Rational
    whose value is the exact quotient of the values of [a] and [b].  The
    scenario [d`1`.dividedBy(d`3`).equalTo(r`1/3`)] is [true]. *)
Theorem Decimal_dividedBy_exact :
  (forall a b : Decimal,
      Decimal_ok a -> Decimal_ok b -> digits b <> 0 ->
      Decimal_dividedBy a [b]
      = (x <- Decimal_toRational a ;;
         y <- Decimal_toRational b ;;
         Rational_dividedBy x [y])
      /\ exists q : Rational,
          Decimal_dividedBy a [b] = Return q
          /\ Rational_ok q
          /\ (Rational_value q == Decimal_value a / Decimal_value b)%Q)
  /\ (a <- Decimal_fromString "1" ;;
      b <- Decimal_fromString "3" ;;
      q <- Decimal_dividedBy a [b] ;;
      r <- Rational_fromString "1/3" ;;
      Rational_equalTo q r) = Return true.
Proof.
  split; [|reflexivity].
  intros a b Ha Hb Hnz.
  unfold Decimal_dividedBy. simpl.
  rewrite !Decimal_toRational_ok by assumption. simpl.
  split; [reflexivity|].
  unfold Decimal_ok in *.
  assert (Pa : 0 < 10 ^ scale a) by now apply Z.pow_pos_nonneg.
  assert (Pb : 0 < 10 ^ scale b) by now apply Z.pow_pos_nonneg.
  unfold Rational_dividedBy. simpl.
  destruct (Z.gtb_spec (digits b) 0) as [Hpos|Hle];
    [|destruct (Z.ltb_spec (digits b) 0) as [Hneg|Hge]; [|lia]]; simpl.
  - rewrite Rational_new_ok by nia.
    eexists; split; [reflexivity|]. split; [unfold Rational_ok; simpl; nia|].
    unfold Rational_value, Decimal_value. simpl.
    rewrite !inject_Z_mult. field.
    repeat split; apply inject_Z_nonzero; lia.
  - rewrite Rational_new_ok by nia.
    eexists; split; [reflexivity|]. split; [unfold Rational_ok; simpl; nia|].
    unfold Rational_value, Decimal_value. simpl.
    rewrite !inject_Z_mult, !inject_Z_opp. field.
    repeat split; apply inject_Z_nonzero; lia.
Qed.

Lemma Decimal_dividedBy_exact_witness :
  Decimal_ok (mkDecimal 15 1) /\ Decimal_ok (mkDecimal (-25) 2)
  /\ digits (mkDecimal (-25) 2) <> 0
  /\ exists q : Rational,
      Decimal_dividedBy (mkDecimal 15 1) [mkDecimal (-25) 2] = Return q
      /\ Rational_ok q
      /\ (Rational_value q
          == Decimal_value (mkDecimal 15 1) / Decimal_value (mkDecimal (-25) 2))%Q.
Proof.
  assert (Ha : Decimal_ok (mkDecimal 15 1)) by (unfold Decimal_ok; simpl; lia).
  assert (Hb : Decimal_ok (mkDecimal (-25) 2)) by (unfold Decimal_ok; simpl; lia).
  assert (Hnz : digits (mkDecimal (-25) 2) <> 0) by (simpl; lia).
  repeat (split; [assumption|]).
  exact (proj2 (proj1 Decimal_dividedBy_exact _ _ Ha Hb Hnz)).
Defined.

(** ** Trial division *)

Section TrialDivision.

Lemma sieved_le dividend divisor :
  2 <= dividend -> sieved dividend divisor -> divisor <= dividend.
Proof.
  intros H2 Hs. destruct (Z_le_gt_dec divisor dividend) as [|Hgt]; [assumption|].
  exfalso. apply (Hs dividend); [lia|apply Z.divide_refl].
Qed.

Lemma sieved_next dividend divisor :
  sieved dividend divisor -> ~ (divisor | dividend) ->
  sieved dividend (divisor + 1).
Proof.
  intros Hs Hn k Hk. destruct (Z.eq_dec k divisor) as [->|]; [assumption|].
  apply Hs. lia.
Qed.

Lemma sieved_quot dividend divisor :
  dividend = divisor * Z.quot dividend divisor ->
  sieved dividend divisor -> sieved (Z.quot dividend divisor) divisor.
Proof.
  intros E Hs k Hk Hdiv. apply (Hs k Hk). rewrite E.
  now apply Z.divide_mul_r.
Qed.

Lemma sieved_prime dividend divisor :
  2 <= divisor -> sieved dividend divisor -> (divisor | dividend) ->
  Z.prime divisor.
Proof.
  intros H2 Hs Hd. split; [lia|].
  intros n Hn Hdiv. apply (Hs n); [lia|].
  now apply Z.divide_trans with divisor.
Qed.

Lemma budget_length_of_pos p : forall after,
  budget_length (budget_of_pos p after)
  = (Pos.to_nat p + budget_length (after tt))%nat.
Proof.
  induction p as [p IH|p IH|]; intros after.
  - cbn [budget_of_pos budget_length]. rewrite !IH, Pos2Nat.inj_xI. lia.
  - cbn [budget_of_pos]. rewrite !IH, Pos2Nat.inj_xO. lia.
  - reflexivity.
Qed.

Lemma budget_length_of_Z z :
  0 < z -> Z.of_nat (budget_length (budget_of_Z z)) = z.
Proof.
  intros Hz. unfold budget_of_Z. rewrite budget_length_of_pos. simpl.
  rewrite Nat.add_0_r, positive_nat_Z. now apply Z2Pos.id.
Qed.

(** One pass of the loop, as the two branches of the source. *)
Lemma loop_step rest dividend divisor :
  2 <= dividend -> 2 <= divisor ->
  (Z.rem dividend divisor = 0 /\ (divisor | dividend)
   /\ dividend = divisor * Z.quot dividend divisor
   /\ 1 <= Z.quot dividend divisor /\ 2 * Z.quot dividend divisor <= dividend
   /\ primeFactors_loop (Step rest) dividend divisor
      = option_map (cons divisor)
          (primeFactors_loop (rest tt) (Z.quot dividend divisor) divisor))
  \/ (~ (divisor | dividend)
      /\ primeFactors_loop (Step rest) dividend divisor
         = primeFactors_loop (rest tt) dividend (divisor + 1)).
Proof.
  intros Hn Hd. simpl.
  destruct (Z.geb_spec dividend 2); [|lia].
  destruct (Z.eqb_spec (Z.rem dividend divisor) 0) as [E|E].
  - left. assert (Hq : dividend = divisor * Z.quot dividend divisor)
      by (apply Z.quot_exact; [lia|assumption]).
    assert (Hb : 1 <= Z.quot dividend divisor
                 /\ 2 * Z.quot dividend divisor <= dividend)
      by (revert Hq; generalize (Z.quot dividend divisor); intros q Hq; nia).
    repeat split; try assumption; try apply Hb.
    apply Z.rem_divide; [lia|assumption].
  - right. split; [|reflexivity].
    intros Hdiv. apply E. apply Z.rem_divide; [lia|assumption].
Qed.

Lemma loop_stop passes dividend divisor :
  dividend < 2 -> primeFactors_loop passes dividend divisor = Some [].
Proof.
  intros H. destruct passes; simpl;
    destruct (Z.geb_spec dividend 2); (lia || reflexivity).
Qed.

(** The generator ends: the budget [primeFactors] gives is enough. *)
Lemma primeFactors_loop_runs passes : forall dividend divisor,
  2 <= divisor -> sieved dividend divisor ->
  2 * dividend - divisor <= Z.of_nat (budget_length passes) ->
  exists yielded, primeFactors_loop passes dividend divisor = Some yielded.
Proof.
  induction passes as [|rest IH]; intros dividend divisor Hd Hs Hf;
    (destruct (Z_lt_ge_dec dividend 2) as [Hlt|H2];
     [rewrite loop_stop by assumption; eauto|]);
    pose proof (sieved_le dividend divisor ltac:(lia) Hs).
  - cbn [budget_length] in Hf. lia.
  - cbn [budget_length] in Hf.
    destruct (loop_step rest dividend divisor ltac:(lia) Hd)
      as [(_ & _ & Hq & H1 & Hhalf & ->)|(Hn & ->)].
    + destruct (IH tt (Z.quot dividend divisor) divisor Hd
                  (sieved_quot _ _ Hq Hs) ltac:(lia)) as [l ->].
      simpl. eauto.
    + apply IH; [lia|now apply sieved_next|lia].
Qed.

Lemma primeFactors_of_one yielded p :
  Some (@nil Z) = Some yielded ->
  (In p yielded <-> Z.prime p /\ (p | 1)).
Proof.
  intros [= <-]. split; [intros []|].
  intros [Hp Hdiv]. apply Z.prime_ge_2 in Hp.
  apply Z.divide_1_r_nonneg in Hdiv; lia.
Qed.

(** What it yields: exactly the primes that divide the dividend, and
    their product is the dividend. *)
Lemma primeFactors_loop_spec passes : forall dividend divisor yielded,
  1 <= dividend -> 2 <= divisor -> sieved dividend divisor ->
  primeFactors_loop passes dividend divisor = Some yielded ->
  (forall p, In p yielded <-> Z.prime p /\ (p | dividend))
  /\ fold_right Z.mul 1 yielded = dividend.
Proof.
  induction passes as [|rest IH]; intros dividend divisor yielded H1 Hd Hs Hrun;
    (destruct (Z_lt_ge_dec dividend 2) as [Hlt|H2];
     [rewrite loop_stop in Hrun by assumption;
      assert (dividend = 1) as -> by lia;
      split; [intros p; now apply primeFactors_of_one
             |now injection Hrun as <-]|]).
  - simpl in Hrun. destruct (Z.geb_spec dividend 2); [discriminate|lia].
  - destruct (loop_step rest dividend divisor ltac:(lia) Hd)
      as [(_ & Hdiv & Hq & Hq1 & _ & E)|(Hn & E)]; rewrite E in Hrun.
    + destruct (primeFactors_loop (rest tt) _ divisor) as [l|] eqn:El;
        [|discriminate].
      injection Hrun as <-.
      destruct (IH tt _ _ _ Hq1 Hd (sieved_quot _ _ Hq Hs) El) as [Hin Hprod].
      pose proof (sieved_prime _ _ Hd Hs Hdiv) as Hprime.
      split; [|simpl; rewrite Hprod; lia].
      intros p. simpl. rewrite Hin. split.
      * intros [<-|[Hp Hpq]]; [now split|].
        split; [assumption|]. rewrite Hq. now apply Z.divide_mul_r.
      * intros [Hp Hpd]. rewrite Hq in Hpd.
        apply Z.divide_prime_mul in Hpd as [Hpd|Hpd]; [|auto|assumption].
        left. symmetry. now apply Z.divide_prime_prime.
    + destruct (IH tt dividend (divisor + 1) yielded H1 ltac:(lia)
                  (sieved_next _ _ Hs Hn) Hrun) as [Hin Hprod].
      now split.
Qed.

Lemma sieved_2 dividend : sieved dividend 2.
Proof. intros k Hk. lia. Qed.

Lemma primeFactors_abs dividend :
  primeFactors_loop (budget_of_Z (2 * Z.abs dividend)) (Z.abs dividend) 2
  = Some (primeFactors dividend).
Proof.
  unfold primeFactors.
  replace (if dividend <? 0 then - dividend else dividend)
    with (Z.abs dividend) by (destruct (Z.ltb_spec dividend 0); lia).
  destruct (Z.eq_dec dividend 0) as [->|Hnz]; [reflexivity|].
  destruct (primeFactors_loop_runs (budget_of_Z (2 * Z.abs dividend))
              (Z.abs dividend) 2 ltac:(lia) (sieved_2 _)) as [l ->];
    [|reflexivity].
  rewrite budget_length_of_Z; lia.
Qed.

(** [primeFactors] yields the prime divisors of a non-zero number ... *)
Lemma primeFactors_In dividend p :
  dividend <> 0 ->
  In p (primeFactors dividend) <-> Z.prime p /\ (p | dividend).
Proof.
  intros Hnz.
  destruct (primeFactors_loop_spec _ (Z.abs dividend) 2 _ ltac:(lia)
              ltac:(lia) (sieved_2 _) (primeFactors_abs dividend))
    as [Hin _].
  rewrite Hin. now rewrite Z.divide_abs_r.
Qed.

(** ... with their multiplicities. *)
Lemma primeFactors_product dividend :
  dividend <> 0 ->
  fold_right Z.mul 1 (primeFactors dividend) = Z.abs dividend.
Proof.
  intros Hnz.
  now destruct (primeFactors_loop_spec _ (Z.abs dividend) 2 _ ltac:(lia)
                  ltac:(lia) (sieved_2 _) (primeFactors_abs dividend))
    as [_ Hprod].
Qed.

Lemma Set_has_In s v : Set_has s v = true <-> In v s.
Proof.
  unfold Set_has. rewrite existsb_exists. split.
  - intros (x & Hx & E). apply Z.eqb_eq in E. now subst.
  - intros H. exists v. split; [assumption|apply Z.eqb_refl].
Qed.

Lemma Set_from_In iterable v : In v (Set_from iterable) <-> In v iterable.
Proof.
  unfold Set_from.
  enough (G : forall s, In v (fold_left Set_add iterable s)
                        <-> In v s \/ In v iterable)
    by (rewrite G; simpl; tauto).
  induction iterable as [|x l IH]; intros s; simpl; [tauto|].
  rewrite IH. unfold Set_add.
  destruct (Set_has s x) eqn:E.
  - apply Set_has_In in E. split; [tauto|].
    intros [H|[<-|H]]; tauto.
  - rewrite in_app_iff. simpl. tauto.
Qed.

Lemma isTerminating_for_spec distinct factors :
  isTerminating_for distinct factors = true
  <-> forall p, In p factors -> In p distinct.
Proof.
  induction factors as [|x l IH]; simpl; [easy|].
  destruct (Set_has distinct x) eqn:E; simpl.
  - apply Set_has_In in E. rewrite IH. split.
    + intros H p [<-|Hp]; auto.
    + auto.
  - split; [discriminate|]. intros H.
    assert (In x distinct) by auto.
    apply Set_has_In in H0. congruence.
Qed.

End TrialDivision.

(** C9. For positive [dividend] and [divisor], [isTerminating] is [true]
    exactly when every prime that divides [divisor] divides [dividend]. *)
Theorem isTerminating_prime_divisors (dividend divisor : Z) :
  0 < dividend -> 0 < divisor ->
  (isTerminating dividend divisor = true
   <-> forall p, Z.prime p -> (p | divisor) -> (p | dividend)).
Proof.
  intros Hn Hd. unfold isTerminating, distinctPrimeFactors.
  rewrite isTerminating_for_spec. split.
  - intros H p Hp Hdiv.
    assert (Hin : In p (primeFactors divisor))
      by (apply primeFactors_In; [lia|now split]).
    apply H, Set_from_In, primeFactors_In in Hin; [tauto|lia].
  - intros H p Hin. apply primeFactors_In in Hin as [Hp Hdiv]; [|lia].
    apply Set_from_In, primeFactors_In; [lia|]. split; auto.
Qed.

Lemma isTerminating_prime_divisors_witness :
  0 < 10 /\ 0 < 40
  /\ (isTerminating 10 40 = true
      <-> forall p, Z.prime p -> (p | 40) -> (p | 10)).
Proof.
  split; [lia|]. split; [lia|].
  apply (isTerminating_prime_divisors 10 40); lia.
Defined.

(** ** Rational: long division *)

Section LongDivision.

Variable denominator : Z.
Hypothesis denominator_pos : 0 < denominator.

Lemma while_step fuel limit digits remainder s :
  Rational_toDecimal_while (S fuel) denominator limit digits remainder s =
  if negb (remainder =? 0)
     && match limit with None => true | Some limit => s <? limit end
  then Rational_toDecimal_while fuel denominator limit
         (digits * 10 + Z.quot (remainder * 10) denominator)
         (Z.rem (remainder * 10) denominator) (s + 1)
  else Return digits.
Proof.
  simpl. unfold bigint_div, bigint_rem.
  destruct (Z.eqb_spec denominator 0); [lia|reflexivity].
Qed.

(** More fuel does not change what the loop returns. *)
Lemma while_more_fuel fuel : forall fuel' limit digits remainder s result,
  (fuel <= fuel')%nat ->
  Rational_toDecimal_while fuel denominator limit digits remainder s
  = Return result ->
  Rational_toDecimal_while fuel' denominator limit digits remainder s
  = Return result.
Proof.
  induction fuel as [|fuel IH]; intros fuel' limit digits remainder s result Hle.
  - destruct fuel'; simpl;
      destruct (negb (remainder =? 0) && _); easy.
  - destruct fuel' as [|fuel']; [lia|]. rewrite !while_step.
    destruct (negb (remainder =? 0) && _); [|easy].
    apply IH. lia.
Qed.

(** With a finite [limit] the counter [s] stops the loop. *)
Lemma while_limited fuel : forall limit digits remainder s,
  limit - s <= Z.of_nat fuel ->
  exists result,
    Rational_toDecimal_while fuel denominator (Some limit) digits remainder s
    = Return result.
Proof.
  induction fuel as [|fuel IH]; intros limit digits remainder s Hf.
  - simpl. destruct (Z.ltb_spec s limit); [lia|].
    rewrite andb_false_r. eauto.
  - rewrite while_step.
    destruct (negb (remainder =? 0) && (s <? limit)); [|eauto].
    apply IH. lia.
Qed.

(** Without one, the remainder does: it reaches zero as soon as the
    denominator divides the power of ten the dividend has been scaled by. *)
Lemma while_unlimited fuel : forall digits remainder s,
  Z.abs remainder < denominator ->
  (denominator | remainder * 10 ^ Z.of_nat fuel) ->
  exists result,
    Rational_toDecimal_while fuel denominator None digits remainder s
    = Return result.
Proof.
  induction fuel as [|fuel IH]; intros digits remainder s Hr Hdiv.
  - simpl in *. rewrite Z.mul_1_r in Hdiv.
    assert (remainder = 0) as ->.
    { destruct (Z.eq_dec remainder 0) as [|Hnz]; [assumption|].
      apply Z.divide_abs_r, Z.divide_pos_le in Hdiv; lia. }
    simpl. eauto.
  - rewrite while_step.
    destruct (negb (remainder =? 0) && true); [|eauto].
    apply IH.
    + pose proof (Z.rem_bound_abs (remainder * 10) denominator). lia.
    + rewrite Nat2Z.inj_succ, Z.pow_succ_r, Z.mul_assoc in Hdiv by lia.
      rewrite (Z.quot_rem' (remainder * 10) denominator) in Hdiv.
      rewrite Z.mul_add_distr_r in Hdiv.
      apply (Z.divide_add_cancel_r _ _ _ (Z.divide_mul_l _ _ _
               (Z.divide_mul_l _ _ _ (Z.divide_refl _)))) in Hdiv.
      exact Hdiv.
Qed.

(** A number whose prime factors are all among those of ten divides a
    power of ten. *)
Lemma divides_power_of_ten factors :
  (forall p, In p factors -> In p (distinctPrimeFactors 10)) ->
  (fold_right Z.mul 1 factors | 10 ^ Z.of_nat (List.length factors)).
Proof.
  induction factors as [|p l IH]; intros H.
  - apply Z.divide_refl.
  - change (List.length (p :: l)) with (S (List.length l)).
    rewrite Nat2Z.inj_succ, Z.pow_succ_r by lia. simpl fold_right.
    destruct IH as [b Hb]; [intros q Hq; apply H; now right|].
    rewrite Hb.
    destruct (H p (or_introl eq_refl)) as [<-|[<-|[]]].
    + exists (5 * b). ring.
    + exists (2 * b). ring.
Qed.

Lemma isTerminating_10 :
  isTerminating 10 denominator = true ->
  (denominator | 10 ^ Z.of_nat (List.length (primeFactors denominator))).
Proof.
  intros H. unfold isTerminating in H.
  pose proof (divides_power_of_ten _
                (proj1 (isTerminating_for_spec _ _) H)) as Hdiv.
  rewrite primeFactors_product in Hdiv by lia.
  now rewrite Z.abs_eq in Hdiv by lia.
Qed.

End LongDivision.

(** C10. For a Rational and a scale [s >= 0], [toDecimal(s)] returns (given
    enough fuel for the long division, and then with any more) a Decimal
    whose [scale] is [s], also when the expansion terminates and the loop
    stops before [s] digits; [Rational(1,2).toDecimal()] is the Decimal
    with [digits = 5] and the default [scale = 16]. *)
Theorem toDecimal_scale_is_argument (r : Rational) (s : Z) :
  Rational_ok r -> 0 <= s ->
  (exists fuel0 result,
      scale result = s
      /\ forall fuel, (fuel0 <= fuel)%nat ->
           Rational_toDecimal fuel r (Some (IBigInt s)) = Return result)
  /\ (forall fuel, (1 <= fuel)%nat ->
        Rational_toDecimal fuel (mkRational 1 2) None
        = Return (mkDecimal 5 16)).
Proof.
  intros Hr Hs. unfold Rational_ok in Hr. split.
  - assert (Hloop : forall limit,
               limit = (if isTerminating 10 (denominator r) then None else Some s) ->
               exists fuel0 d,
                 Rational_toDecimal_while fuel0 (denominator r) limit
                   (Z.quot (numerator r) (denominator r))
                   (Z.rem (numerator r) (denominator r)) 0 = Return d).
    { intros limit ->. destruct (isTerminating 10 (denominator r)) eqn:E.
      - exists (List.length (primeFactors (denominator r))).
        apply while_unlimited; [assumption| |].
        + pose proof (Z.rem_bound_abs (numerator r) (denominator r)). lia.
        + apply Z.divide_mul_r. now apply isTerminating_10.
      - exists (Z.to_nat s). apply while_limited; [assumption|lia]. }
    destruct (Hloop _ eq_refl) as (fuel0 & d & Hrun).
    exists fuel0, (mkDecimal d s). split; [reflexivity|].
    intros fuel Hfuel. unfold Rational_toDecimal.
    rewrite Integer_bigint. unfold bigint_div, bigint_rem.
    destruct (Z.eqb_spec (denominator r) 0); [lia|].
    apply (while_more_fuel _ Hr _ fuel) in Hrun; [|assumption].
    destruct (isTerminating 10 (denominator r)); simpl; rewrite Hrun; simpl;
      now apply Decimal_new_ok.
  - intros [|[|fuel]] Hfuel; [lia|reflexivity..].
Qed.

Lemma toDecimal_scale_is_argument_witness :
  Rational_ok (mkRational 1 4) /\ 0 <= 5
  /\ exists fuel0 result,
      scale result = 5
      /\ forall fuel, (fuel0 <= fuel)%nat ->
           Rational_toDecimal fuel (mkRational 1 4) (Some (IBigInt 5))
           = Return result.
Proof.
  assert (Hr : Rational_ok (mkRational 1 4)) by (unfold Rational_ok; simpl; lia).
  assert (Hs : 0 <= 5) by lia.
  split; [exact Hr|]. split; [exact Hs|].
  exact (proj1 (toDecimal_scale_is_argument (mkRational 1 4) 5 Hr Hs)).
Defined.

(** What that Decimal is: [1/4] at scale [5] comes back as [25] with scale
    [5], that is [0.00025]. *)
Example toDecimal_quarter fuel :
  Rational_toDecimal (2 + fuel) (mkRational 1 4) (Some (IBigInt 5))
  = Return (mkDecimal 25 5).
Proof. destruct fuel; reflexivity. Qed.

(** ** Decimal to Rational and back *)

(** C1. [Decimal(10, 1)], that is [d`1.0`], does not survive
    [toRational().toDecimal(scale)]: the division of [10/10] ends with no
    pass of the loop and [digits = 1], which [toDecimal] returns under the
    scale it was asked for, [Decimal(1, 1)] or [0.1]; [equalTo] is [false],
    whatever the fuel. *)
Theorem toRational_toDecimal_loses_trailing_zero (fuel : nat) :
  Decimal_fromString "1.0" = Return (mkDecimal 10 1)
  /\ (a <- Decimal_new (IBigInt 10) (IBigInt 1) ;;
   r <- Decimal_toRational a ;;
   Rational_toDecimal fuel r (Some (IBigInt (scale a))))
  = Return (mkDecimal 1 1)
  /\ (a <- Decimal_new (IBigInt 10) (IBigInt 1) ;;
      r <- Decimal_toRational a ;;
      b <- Rational_toDecimal fuel r (Some (IBigInt (scale a))) ;;
      Decimal_equalTo b a)
     = Return false.
Proof. destruct fuel; repeat split; reflexivity. Qed.

(** ** Rational: simplify *)

(** C3. [Rational(-1, 2).simplify()] throws: Euclid's algorithm on the
    truncating remainder gives [gcd(-1, 2) = -1], and the quotients [1] and
    [-2] are refused by the constructor. *)
Theorem simplify_negative_numerator_throws :
  greatestCommonDivisor (-1) 2 = -1
  /\ (a <- Rational_new (IBigInt (-1)) (IBigInt 2) ;; Rational_simplify a)
     = Throw (RangeError
                "Rational denominator must be greater than zero, received -2."
                (Some ("denominator", IBigInt (-2)))).
Proof. split; reflexivity. Qed.

(** With a numerator that is not negative [simplify] does return, the
    fraction in lowest terms, and simplifying that changes nothing. *)
Lemma simplify_nonneg (a : Rational) :
  Rational_ok a -> 0 <= numerator a ->
  exists b,
    Rational_simplify a = Return b
    /\ Rational_ok b
    /\ numerator b = numerator a / Z.gcd (numerator a) (denominator a)
    /\ denominator b = denominator a / Z.gcd (numerator a) (denominator a)
    /\ Z.gcd (numerator b) (denominator b) = 1
    /\ Rational_simplify b = Return b.
Proof.
  destruct a as [n d]. unfold Rational_ok. simpl. intros Hd Hn.
  assert (Hg : 0 < Z.gcd n d).
  { pose proof (Z.gcd_nonneg n d).
    destruct (Z.eq_dec (Z.gcd n d) 0) as [E|]; [|lia].
    apply Z.gcd_eq_0_r in E. lia. }
  assert (Hdg : 0 < d / Z.gcd n d).
  { destruct (Z.gcd_divide_r n d) as [q Hq].
    rewrite Hq at 1. rewrite Z.div_mul by lia. nia. }
  assert (Hng : 0 <= n / Z.gcd n d) by (apply Z.div_pos; lia).
  assert (H1 : Z.gcd (n / Z.gcd n d) (d / Z.gcd n d) = 1)
    by (apply Z.gcd_div_gcd; [lia|reflexivity]).
  exists (mkRational (n / Z.gcd n d) (d / Z.gcd n d)).
  assert (Hsimp : forall n' d' g, 0 <= n' -> 0 < d' -> 0 < d' / g ->
             Z.gcd n' d' = g -> 0 < g ->
             Rational_simplify (mkRational n' d')
             = Return (mkRational (n' / g) (d' / g))).
  { intros n' d' g Hn' Hd' Hq <- Hg'. unfold Rational_simplify. simpl.
    rewrite greatestCommonDivisor_nonneg by lia.
    unfold bigint_div. destruct (Z.eqb_spec (Z.gcd n' d') 0); [lia|]. simpl.
    rewrite !Z.quot_div_nonneg by lia.
    now apply Rational_new_ok. }
  repeat split; simpl; try assumption.
  - now apply Hsimp.
  - rewrite (Hsimp _ _ 1 Hng Hdg); rewrite ?Z.div_1_r; auto; lia.
Qed.

(** ** Decimal: toString *)

Lemma string_of_list_ascii_app a b :
  string_of_list_ascii (a ++ b)
  = (string_of_list_ascii a ++ string_of_list_ascii b)%string.
Proof. induction a as [|c a IH]; simpl; [reflexivity|now rewrite IH]. Qed.

Lemma string_of_list_ascii_snoc l c str :
  (string_of_list_ascii (l ++ [c]) ++ str)%string
  = (string_of_list_ascii l ++ String c str)%string.
Proof. induction l as [|x l IH]; simpl; [reflexivity|now rewrite IH]. Qed.

Lemma toString_while_step scale str digits :
  Decimal_toString_while (S (S scale)) str digits
  = Decimal_toString_while (S scale) (String (last digits "0"%char) str)
      (removelast digits).
Proof. reflexivity. Qed.

Lemma toString_while_last str digits :
  Decimal_toString_while 1 str digits
  = (String "." (String (last digits "0"%char) str), removelast digits).
Proof. reflexivity. Qed.

Lemma last_rev_cons (c : ascii) r d : last (rev (c :: r)) d = c.
Proof. simpl. apply last_last. Qed.

Lemma removelast_rev_cons (c : ascii) r : removelast (rev (c :: r)) = rev r.
Proof. simpl. apply removelast_last. Qed.

Lemma toString_while_rev scale : forall str rdigits,
  Decimal_toString_while (S scale) str (rev rdigits)
  = (String "."
       (string_of_list_ascii
          (rev (firstn (S scale)
                  (rdigits ++ repeat "0"%char (S scale - List.length rdigits))))
        ++ str)%string,
     rev (skipn (S scale) rdigits)).
Proof.
  induction scale as [|scale IH]; intros str rdigits.
  - rewrite toString_while_last.
    destruct rdigits as [|c r]; [reflexivity|].
    rewrite last_rev_cons, removelast_rev_cons. reflexivity.
  - rewrite toString_while_step.
    destruct rdigits as [|c r].
    + change (removelast (rev [])) with (@rev ascii []).
      rewrite IH. f_equal. f_equal.
      change (last (rev []) "0"%char) with "0"%char.
      simpl List.length. rewrite !Nat.sub_0_r.
      change (firstn (S (S scale)) ([] ++ repeat "0"%char (S (S scale))))
        with ("0"%char :: firstn (S scale) ([] ++ repeat "0"%char (S scale))).
      change (rev ("0"%char :: ?l)) with (rev l ++ ["0"%char]).
      now rewrite string_of_list_ascii_snoc.
    + rewrite last_rev_cons, removelast_rev_cons, IH. f_equal. f_equal.
      change (firstn (S (S scale))
                ((c :: r) ++ repeat "0"%char (S (S scale) - List.length (c :: r))))
        with (c :: firstn (S scale)
                     (r ++ repeat "0"%char (S scale - List.length r))).
      change (rev (c :: ?l)) with (rev l ++ [c]).
      now rewrite string_of_list_ascii_snoc.
Qed.

Lemma toString_while_closed scale str digits :
  Decimal_toString_while (S scale) str digits
  = (String "." (string_of_list_ascii (taken (S scale) digits) ++ str)%string,
     firstn (List.length digits - S scale) digits).
Proof.
  rewrite <- (rev_involutive digits) at 1. rewrite toString_while_rev.
  rewrite skipn_rev, rev_involutive, length_rev. f_equal. f_equal. f_equal.
  unfold taken.
  destruct (Nat.le_gt_cases (S scale) (List.length digits)) as [Hle|Hgt].
  - replace (S scale - List.length digits)%nat with 0%nat by lia.
    simpl repeat. rewrite app_nil_r, firstn_rev, rev_involutive. reflexivity.
  - rewrite firstn_all2
      by (rewrite length_app, length_rev, repeat_length; lia).
    rewrite rev_app_distr, rev_involutive, rev_repeat.
    replace (List.length digits - S scale)%nat with 0%nat by lia.
    reflexivity.
Qed.

Lemma append_nil_r s : (s ++ "")%string = s.
Proof. induction s as [|c s IH]; simpl; [reflexivity|now rewrite IH]. Qed.

Lemma toString_from_unsigned text scale :
  unsignedText text ->
  Decimal_toString_from text scale
  = string_of_list_ascii (canonicalForm_spec text scale).
Proof.
  intros (c & t & -> & Hc). unfold Decimal_toString_from, canonicalForm_spec.
  rewrite Hc. remember (c :: t) as text eqn:Etext.
  assert (HL : (1 <= List.length text)%nat) by (subst text; simpl; lia).
  remember (List.length text) as L eqn:EL.
  destruct scale as [|scale].
  - cbn [Decimal_toString_while].
    replace (1 - L)%nat with 0%nat by lia. cbn [repeat].
    rewrite !app_nil_l, Nat.sub_0_r, <- EL, EL, firstn_all, !app_nil_r, append_nil_r.
    subst text. destruct t; [now rewrite Hc|reflexivity].
  - rewrite toString_while_closed. cbv iota beta. unfold taken.
    rewrite append_nil_r, <- EL.
    destruct (Nat.le_gt_cases L (S scale)) as [Hle|Hgt].
    + replace (S (S scale) - L)%nat with (S (S scale - L)) by lia.
      replace (L - S scale)%nat with 0%nat by lia.
      rewrite length_app, repeat_length, <- EL.
      replace (S (S scale - L) + L - S scale)%nat with 1%nat by lia.
      cbn [repeat app firstn skipn]. reflexivity.
    + replace (S (S scale) - L)%nat with 0%nat by lia.
      replace (S scale - L)%nat with 0%nat by lia.
      cbn [repeat app]. rewrite <- EL.
      assert (E : exists k, (L - S scale)%nat = S k)
        by (exists (L - S scale - 1)%nat; lia).
      destruct E as [k ->]. rewrite string_of_list_ascii_app.
      subst text. rewrite firstn_cons.
      destruct (firstn k t); [now rewrite Hc|reflexivity].
Qed.

Lemma toString_from_signed magnitude scale :
  (scale <= List.length magnitude)%nat ->
  Decimal_toString_from ("-"%char :: magnitude) scale
  = string_of_list_ascii (canonicalForm_spec ("-"%char :: magnitude) scale).
Proof.
  intros Hle. unfold Decimal_toString_from, canonicalForm_spec.
  change (Ascii.eqb "-" "-") with true. cbv iota beta.
  remember (List.length magnitude) as L eqn:EL.
  destruct scale as [|scale].
  - cbn [Decimal_toString_while]. rewrite Nat.sub_0_r, app_nil_r, append_nil_r.
    rewrite firstn_all.
    destruct magnitude as [|c m]; [now subst L|].
    replace (1 - L)%nat with 0%nat by (simpl in EL; lia). reflexivity.
  - rewrite toString_while_closed. cbv iota beta. unfold taken.
    rewrite append_nil_r. cbn [List.length]. rewrite <- EL.
    replace (S scale - S L)%nat with 0%nat by lia.
    replace (S L - S scale)%nat with (L - scale)%nat by lia.
    rewrite length_app, repeat_length, <- EL.
    destruct (Nat.eq_dec L (S scale)) as [->|Hne].
    + replace (S scale - scale)%nat with 1%nat by lia.
      replace (S (S scale) - S scale)%nat with 1%nat by lia.
      replace (1 + S scale - S scale)%nat with 1%nat by lia.
      cbn [repeat app firstn skipn]. reflexivity.
    + replace (S (S scale) - L)%nat with 0%nat by lia.
      assert (E : exists k, (L - scale)%nat = S (S k))
        by (exists (L - scale - 2)%nat; lia).
      destruct E as [k Ek]. rewrite Ek.
      replace (0 + L - S scale)%nat with (S k) by lia.
      cbn [repeat app firstn skipn].
      destruct magnitude as [|c m]; [simpl in EL; lia|].
      simpl. now rewrite string_of_list_ascii_app.
Qed.

(** Past that, the sign is taken for a digit: it ends up behind the zeros
    that follow the point. *)
Lemma toString_from_sign_after_point magnitude scale :
  (List.length magnitude < scale)%nat ->
  Decimal_toString_from ("-"%char :: magnitude) scale
  = string_of_list_ascii
      ("0"%char :: "."%char
         :: repeat "0"%char (scale - S (List.length magnitude))
         ++ "-"%char :: magnitude).
Proof.
  intros Hlt. unfold Decimal_toString_from.
  destruct scale as [|scale]; [lia|].
  rewrite toString_while_closed. cbv iota beta. unfold taken.
  rewrite append_nil_r. cbn [List.length].
  replace (S (List.length magnitude) - S scale)%nat with 0%nat by lia.
  reflexivity.
Qed.

Lemma text_nonneg z :
  0 <= z -> unsignedText (list_ascii_of_string (String_of_bigint z)).
Proof.
  intros Hz. unfold String_of_bigint, unsignedText.
  destruct z as [|p|p]; [now exists "0"%char, []| |lia].
  simpl. unfold NilZero.string_of_uint.
  pose proof (uint_of_pos_not_Nil p) as Hn.
  destruct (Pos.to_uint p) as [|d|d|d|d|d|d|d|d|d|d]; [contradiction|..];
    simpl; eauto.
Qed.

Lemma text_neg z :
  z < 0 ->
  list_ascii_of_string (String_of_bigint z)
  = "-"%char :: list_ascii_of_string (String_of_bigint (- z)).
Proof.
  intros Hz. destruct z as [|p|p]; [lia|lia|]. reflexivity.
Qed.

(** Where [toString] is right: digits that are not negative, and negative
    ones with at least [scale] digits. *)
Lemma Decimal_toString_canonical (d : Decimal) :
  0 <= digits d \/ scale d <= Z.of_nat (digitCount (digits d)) ->
  Decimal_toString d
  = string_of_list_ascii
      (canonicalForm_spec
         (list_ascii_of_string (String_of_bigint (digits d)))
         (Z.to_nat (scale d))).
Proof.
  intros H. unfold Decimal_toString.
  destruct (Z_lt_le_dec (digits d) 0) as [Hneg|Hpos].
  - destruct H as [H|H]; [lia|].
    rewrite (text_neg _ Hneg). apply toString_from_signed.
    unfold digitCount in H. rewrite Z.abs_neq in H by lia. lia.
  - now apply toString_from_unsigned, text_nonneg.
Qed.

(** Where it is not: negative digits, fewer of them than [scale]. *)
Lemma Decimal_toString_negative_fraction (d : Decimal) :
  digits d < 0 -> Z.of_nat (digitCount (digits d)) < scale d ->
  Decimal_toString d
  = string_of_list_ascii
      ("0"%char :: "."%char
         :: repeat "0"%char (Z.to_nat (scale d) - S (digitCount (digits d)))
         ++ list_ascii_of_string (String_of_bigint (digits d))).
Proof.
  intros Hneg Hlt. unfold Decimal_toString, digitCount in *.
  rewrite Z.abs_neq in * by lia.
  rewrite (text_neg _ Hneg). apply toString_from_sign_after_point. lia.
Qed.

(** C4. [toString] takes the sign for a digit: [Decimal(-5, 2)], which is
    [d`-0.05`], is rendered
    ["0.-5"], where the canonical form is ["-0.05"], and [fromString] does
    not read it back.  The two renderings the specification quotes,
    ["0.05"] and ["-5"], are as it says. *)
Theorem toString_sign_after_point :
  Decimal_fromString "-0.05" = Return (mkDecimal (-5) 2)
  /\ Decimal_toString (mkDecimal (-5) 2) = "0.-5"
  /\ string_of_list_ascii
       (canonicalForm_spec
          (list_ascii_of_string (String_of_bigint (-5))) 2) = "-0.05"
  /\ Decimal_fromString "0.-5"
     = Throw (SyntaxError "Cannot convert 0-5 to a BigInt")
  /\ Decimal_toString (mkDecimal 5 2) = "0.05"
  /\ Decimal_toString (mkDecimal (-5) 0) = "-5".
Proof. repeat split. Qed.

(** * Further properties *)

(** ** integer.js *)

Lemma gcd_up_to_sign (x y : Z) :
  Z.abs (greatestCommonDivisor x y) = Z.gcd x y.
Proof.
  revert x.
  induction y as [y IH] using (well_founded_induction
                                 (Wf_nat.well_founded_ltof _ Z.abs_nat)).
  intros x. rewrite greatestCommonDivisor_eq.
  destruct (Z.eqb_spec y 0) as [->|Hy].
  - now rewrite Z.gcd_0_r.
  - rewrite IH.
    + rewrite (Z.gcd_comm y), Z.gcd_rem by assumption. apply Z.gcd_comm.
    + unfold Wf_nat.ltof. pose proof (Z.rem_bound_abs x y Hy). lia.
Qed.

(** X1. Whatever the signs of the arguments, Euclid's algorithm ends on the
    greatest common divisor or on its opposite: the sign is not fixed, as
    [gcd(-1, 2) = -1] and [gcd(-4, 6) = 2] show. *)
Theorem greatestCommonDivisor_abs (x y : Z) :
  Z.abs (greatestCommonDivisor x y) = Z.gcd x y
  /\ greatestCommonDivisor (-1) 2 = -1 /\ greatestCommonDivisor (-4) 6 = 2.
Proof. split; [apply gcd_up_to_sign|split; reflexivity]. Qed.

Lemma greatestCommonDivisor_zero x y :
  greatestCommonDivisor x y = 0 <-> x = 0 /\ y = 0.
Proof.
  pose proof (gcd_up_to_sign x y) as H.
  split.
  - intros E. rewrite E in H. simpl in H. symmetry in H.
    split; [now apply Z.gcd_eq_0_l in H|now apply Z.gcd_eq_0_r in H].
  - intros [-> ->]. reflexivity.
Qed.

(** X2. [leastCommonMultiple] throws on [(0, 0)] and nowhere else; what it
    returns is the least common multiple up to its sign. *)
Theorem leastCommonMultiple_spec (x y : Z) :
  (throws (leastCommonMultiple x y) <-> x = 0 /\ y = 0)
  /\ (leastCommonMultiple 0 0 = Throw (RangeError "Division by zero" None))
  /\ match leastCommonMultiple x y with
     | Return l => Z.abs l = Z.lcm x y
     | Throw _ => x = 0 /\ y = 0
     | OutOfFuel => False
     end.
Proof.
  unfold leastCommonMultiple, bigint_div, throws.
  pose proof (greatestCommonDivisor_zero x y) as Hz.
  pose proof (gcd_up_to_sign x y) as Ha.
  split; [|split; [reflexivity|]].
  - destruct (Z.eqb_spec (greatestCommonDivisor x y) 0) as [E|E].
    + split; [intros _; now apply Hz|eauto].
    + split; [intros [e He]; discriminate He|intros H; now apply Hz in H].
  - destruct (Z.eqb_spec (greatestCommonDivisor x y) 0) as [E|E];
      [now apply Hz|].
    rewrite <- Z.quot_abs by assumption. rewrite Ha.
    assert (Hg : 0 < Z.gcd x y)
      by (pose proof (Z.gcd_nonneg x y); lia).
    rewrite Z.quot_div_nonneg by lia.
    unfold Z.lcm. destruct (Z.gcd_divide_r x y) as [k Hk].
    rewrite Hk at 1 3. rewrite Z.mul_assoc, Z.abs_mul.
    rewrite (Z.abs_eq (Z.gcd x y)) by lia.
    now rewrite !Z.div_mul by lia.
Qed.

Lemma primeFactors_loop_sorted passes : forall dividend divisor yielded,
  primeFactors_loop passes dividend divisor = Some yielded ->
  Forall (fun p => divisor <= p) yielded /\ Sorted Z.le yielded.
Proof.
  induction passes as [|rest IH]; intros dividend divisor yielded Hrun;
    simpl in Hrun; destruct (dividend >=? 2);
    try discriminate; try (injection Hrun as <-; now split).
  destruct (Z.rem dividend divisor =? 0).
  - destruct (primeFactors_loop (rest tt) _ divisor) as [l|] eqn:El;
      [|discriminate].
    injection Hrun as <-. destruct (IH tt _ _ _ El) as [Hall Hsorted].
    split.
    + constructor; [lia|assumption].
    + constructor; [assumption|].
      destruct Hall; constructor. assumption.
  - destruct (IH tt _ _ _ Hrun) as [Hall Hsorted]. split; [|assumption].
    eapply Forall_impl; [|exact Hall]. simpl. intros; lia.
Qed.

(** X3. [primeFactors] factors: for a non-zero [n] it yields primes, in
    ascending order, whose product is [|n|]. *)
Theorem primeFactors_factorisation (n : Z) :
  n <> 0 ->
  Forall Z.prime (primeFactors n)
  /\ Sorted Z.le (primeFactors n)
  /\ fold_right Z.mul 1 (primeFactors n) = Z.abs n.
Proof.
  intros Hn. split; [|split].
  - apply Forall_forall. intros p Hp.
    now apply primeFactors_In in Hp.
  - now destruct (primeFactors_loop_sorted _ _ _ _ (primeFactors_abs n)).
  - now apply primeFactors_product.
Qed.

Lemma primeFactors_factorisation_witness :
  360 <> 0
  /\ Forall Z.prime (primeFactors 360)
  /\ Sorted Z.le (primeFactors 360)
  /\ fold_right Z.mul 1 (primeFactors 360) = Z.abs 360.
Proof.
  split; [discriminate|].
  apply (primeFactors_factorisation 360). discriminate.
Defined.

(** Nothing is yielded for [0], [1] and [-1]. *)
Example primeFactors_units :
  primeFactors 0 = [] /\ primeFactors 1 = [] /\ primeFactors (-1) = [].
Proof. repeat split. Qed.

Lemma Set_from_NoDup iterable : NoDup (Set_from iterable).
Proof.
  unfold Set_from.
  enough (G : forall s, NoDup s -> NoDup (fold_left Set_add iterable s))
    by (apply G; constructor).
  induction iterable as [|x l IH]; intros s Hs; simpl; [assumption|].
  apply IH. unfold Set_add. destruct (Set_has s x) eqn:E; [assumption|].
  apply NoDup_app; [assumption|repeat constructor; intros []|].
  intros a Ha [<-|[]].
  apply Set_has_In in Ha. congruence.
Qed.

(** X4. [distinctPrimeFactors] holds each prime divisor of a non-zero [n]
    once, and nothing else. *)
Theorem distinctPrimeFactors_spec (n : Z) :
  n <> 0 ->
  NoDup (distinctPrimeFactors n)
  /\ forall p, In p (distinctPrimeFactors n) <-> Z.prime p /\ (p | n).
Proof.
  intros Hn. split; [apply Set_from_NoDup|].
  intros p. unfold distinctPrimeFactors.
  rewrite Set_from_In. now apply primeFactors_In.
Qed.

Lemma distinctPrimeFactors_spec_witness :
  -360 <> 0
  /\ NoDup (distinctPrimeFactors (-360))
  /\ forall p, In p (distinctPrimeFactors (-360)) <-> Z.prime p /\ (p | -360).
Proof.
  split; [discriminate|].
  apply (distinctPrimeFactors_spec (-360)). discriminate.
Defined.

Lemma prime_divides_power p b k :
  Z.prime p -> (p | b ^ Z.of_nat k) -> (p | b).
Proof.
  intros Hp. induction k as [|k IH].
  - simpl. intros H. apply Z.prime_ge_2 in Hp.
    apply Z.divide_1_r_nonneg in H; lia.
  - rewrite Nat2Z.inj_succ, Z.pow_succ_r by lia.
    intros H. apply Z.divide_prime_mul in H as [H|H]; auto.
Qed.

Lemma divides_power_terminating d k :
  0 < d -> (d | 10 ^ Z.of_nat k) -> isTerminating 10 d = true.
Proof.
  intros Hd Hdiv. unfold isTerminating.
  apply isTerminating_for_spec. intros p Hp.
  apply primeFactors_In in Hp as [Hprime Hpd]; [|lia].
  unfold distinctPrimeFactors. apply Set_from_In, primeFactors_In; [lia|].
  split; [assumption|].
  apply (prime_divides_power p 10 k); [assumption|].
  now apply Z.divide_trans with d.
Qed.

(** X5. Called as [toDecimal] calls it, [isTerminating(10, d)] tells whether
    [d] divides a power of ten, that is whether fractions over [d] have a
    finite decimal expansion. *)
Theorem isTerminating_10_power (d : Z) :
  0 < d ->
  (isTerminating 10 d = true <-> exists k, 0 <= k /\ (d | 10 ^ k)).
Proof.
  intros Hd. split.
  - intros H. eexists. split; [|now apply isTerminating_10].
    apply Nat2Z.is_nonneg.
  - intros (k & Hk & Hdiv).
    apply (divides_power_terminating d (Z.to_nat k)); [assumption|].
    now rewrite Z2Nat.id.
Qed.

Lemma isTerminating_10_power_witness :
  0 < 40 /\ (isTerminating 10 40 = true <-> exists k, 0 <= k /\ (40 | 10 ^ k)).
Proof. split; [lia|]. apply (isTerminating_10_power 40). lia. Defined.

(** ** rational.js *)

Lemma Rational_value_Qmake n d :
  0 < d -> (Rational_value (mkRational n d) == n # Z.to_pos d)%Q.
Proof.
  intros Hd. unfold Rational_value. simpl.
  destruct d as [|p|p]; try lia.
  unfold Qeq, Qdiv, Qmult, Qinv, inject_Z. simpl. lia.
Qed.

Lemma Rational_value_eq (a b : Rational) :
  Rational_ok a -> Rational_ok b ->
  ((Rational_value a == Rational_value b)%Q
   <-> numerator a * denominator b = numerator b * denominator a).
Proof.
  destruct a as [n1 d1], b as [n2 d2]. unfold Rational_ok. simpl.
  intros H1 H2. rewrite !Rational_value_Qmake by assumption.
  unfold Qeq. simpl. now rewrite !Z2Pos.id by assumption.
Qed.

Lemma Rational_value_lt (a b : Rational) :
  Rational_ok a -> Rational_ok b ->
  ((Rational_value a < Rational_value b)%Q
   <-> numerator a * denominator b < numerator b * denominator a).
Proof.
  destruct a as [n1 d1], b as [n2 d2]. unfold Rational_ok. simpl.
  intros H1 H2. rewrite !Rational_value_Qmake by assumption.
  unfold Qlt. simpl. now rewrite !Z2Pos.id by assumption.
Qed.

Lemma Rational_value_le (a b : Rational) :
  Rational_ok a -> Rational_ok b ->
  ((Rational_value a <= Rational_value b)%Q
   <-> numerator a * denominator b <= numerator b * denominator a).
Proof.
  destruct a as [n1 d1], b as [n2 d2]. unfold Rational_ok. simpl.
  intros H1 H2. rewrite !Rational_value_Qmake by assumption.
  unfold Qle. simpl. now rewrite !Z2Pos.id by assumption.
Qed.

(** How two positive denominators are brought to their least common
    multiple: the factors [u] and [v] of [plus], [minus] and [compare]. *)
Lemma alignment d1 d2 :
  0 < d1 -> 0 < d2 ->
  exists g u v,
    0 < g /\ 0 < u /\ 0 < v /\ d1 = g * v /\ d2 = g * u
    /\ Z.lcm d1 d2 = d1 * u
    /\ leastCommonMultiple d1 d2 = Return (d1 * u)
    /\ bigint_div (d1 * u) d1 = Return u
    /\ bigint_div (d1 * u) d2 = Return v.
Proof.
  intros H1 H2.
  assert (Hg : 0 < Z.gcd d1 d2).
  { pose proof (Z.gcd_nonneg d1 d2).
    destruct (Z.eq_dec (Z.gcd d1 d2) 0) as [E|]; [|lia].
    apply Z.gcd_eq_0_l in E. lia. }
  destruct (Z.gcd_divide_l d1 d2) as [v Hv].
  destruct (Z.gcd_divide_r d1 d2) as [u Hu].
  exists (Z.gcd d1 d2), u, v.
  assert (0 < v) by nia. assert (0 < u) by nia.
  assert (Hlcm : Z.quot (d1 * d2) (Z.gcd d1 d2) = d1 * u).
  { rewrite Hu at 1. rewrite Z.mul_assoc, Z.quot_mul by lia. reflexivity. }
  repeat split; try assumption; try lia.
  - unfold Z.lcm. rewrite Hu at 1. rewrite Z.div_mul by lia.
    apply Z.abs_eq. nia.
  - rewrite leastCommonMultiple_pos by assumption. now rewrite Hlcm.
  - unfold bigint_div. destruct (Z.eqb_spec d1 0); [lia|].
    now rewrite (Z.mul_comm d1 u), Z.quot_mul by lia.
  - unfold bigint_div. destruct (Z.eqb_spec d2 0); [lia|].
    f_equal. replace (d1 * u) with (v * d2) by nia.
    now rewrite Z.quot_mul by lia.
Qed.

(** [compare] gives its predicate the two fractions over their least
    common denominator. *)
Lemma Rational_compare_aligned (this that : Rational) predicate :
  Rational_ok this -> Rational_ok that ->
  exists g u v,
    0 < g /\ 0 < u /\ 0 < v
    /\ denominator this = g * v /\ denominator that = g * u
    /\ Rational_compare this that predicate
       = Return (predicate
                   (mkRational (numerator this * u) (denominator this * u))
                   (mkRational (numerator that * v) (denominator that * v))).
Proof.
  unfold Rational_ok. intros H1 H2.
  destruct (alignment _ _ H1 H2)
    as (g & u & v & Hg & Hu & Hv & E1 & E2 & _ & Hlcm & Hdu & Hdv).
  exists g, u, v. repeat split; try assumption.
  unfold Rational_compare. rewrite Hlcm. simpl. rewrite Hdu, Hdv. simpl.
  rewrite !Rational_new_ok by assumption. simpl.
  rewrite !Rational_times_one. simpl.
  rewrite !Rational_new_ok by nia. reflexivity.
Qed.

Lemma cross_multiplied g u v n1 n2 :
  0 < g ->
  (n1 * (g * u) =? n2 * (g * v)) = (n1 * u =? n2 * v)
  /\ (n1 * (g * u) <=? n2 * (g * v)) = (n1 * u <=? n2 * v)
  /\ (n2 * (g * v) <=? n1 * (g * u)) = (n2 * v <=? n1 * u).
Proof.
  intros Hg.
  replace (n1 * (g * u)) with (n1 * u * g) by ring.
  replace (n2 * (g * v)) with (n2 * v * g) by ring.
  repeat split; apply eq_true_iff_eq; rewrite ?Z.eqb_eq, ?Z.leb_le.
  - split; [|now intros ->]. intros H. apply Z.mul_cancel_r in H; lia.
  - symmetry. now apply Z.mul_le_mono_pos_r.
  - symmetry. now apply Z.mul_le_mono_pos_r.
Qed.

(** The five comparisons are comparisons of the cross products. *)
Lemma Rational_compare_cross (this that : Rational) :
  Rational_ok this -> Rational_ok that ->
  Rational_equalTo this that
  = Return (numerator this * denominator that
            =? numerator that * denominator this)
  /\ Rational_lessThan this that
     = Return (numerator this * denominator that
               <? numerator that * denominator this)
  /\ Rational_lessThanOrEqualTo this that
     = Return (numerator this * denominator that
               <=? numerator that * denominator this)
  /\ Rational_greaterThan this that
     = Return (numerator that * denominator this
               <? numerator this * denominator that)
  /\ Rational_greaterThanEqualTo this that
     = Return (numerator that * denominator this
               <=? numerator this * denominator that).
Proof.
  intros H1 H2.
  unfold Rational_equalTo, Rational_lessThan, Rational_lessThanOrEqualTo,
    Rational_greaterThan, Rational_greaterThanEqualTo.
  assert (G : forall p,
             exists g u v, 0 < g
               /\ denominator this = g * v /\ denominator that = g * u
               /\ Rational_compare this that p
                  = Return (p (mkRational (numerator this * u)
                                 (denominator this * u))
                              (mkRational (numerator that * v)
                                 (denominator that * v)))).
  { intros p. destruct (Rational_compare_aligned this that p H1 H2)
      as (g & u & v & Hg & _ & _ & E1 & E2 & E). eauto 8. }
  repeat split;
    match goal with
    | |- Rational_compare _ _ ?p = _ =>
        destruct (G p) as (g & u & v & Hg & E1 & E2 & ->)
    end; simpl; f_equal; rewrite E1, E2;
    destruct (cross_multiplied g u v (numerator this) (numerator that) Hg)
      as (C1 & C2 & C3);
    rewrite ?Z.gtb_ltb, ?Z.geb_leb, ?Z.ltb_antisym, ?C1, ?C2, ?C3;
    reflexivity.
Qed.

(** X6. The five comparisons of Rationals return, and what they return is the comparison of
    the two fractions as rational numbers, whatever their representation. *)
Theorem Rational_comparisons (this that : Rational) :
  Rational_ok this -> Rational_ok that ->
  Rational_equalTo this that
  = Return (Qeq_bool (Rational_value this) (Rational_value that))
  /\ Rational_lessThan this that
     = Return (negb (Qle_bool (Rational_value that) (Rational_value this)))
  /\ Rational_lessThanOrEqualTo this that
     = Return (Qle_bool (Rational_value this) (Rational_value that))
  /\ Rational_greaterThan this that
     = Return (negb (Qle_bool (Rational_value this) (Rational_value that)))
  /\ Rational_greaterThanEqualTo this that
     = Return (Qle_bool (Rational_value that) (Rational_value this)).
Proof.
  intros H1 H2.
  assert (Hle : forall a b, Rational_ok a -> Rational_ok b ->
             Qle_bool (Rational_value a) (Rational_value b)
             = (numerator a * denominator b <=? numerator b * denominator a)).
  { intros a b Ha Hb. apply eq_true_iff_eq.
    rewrite Qle_bool_iff, Rational_value_le, Z.leb_le by assumption.
    reflexivity. }
  assert (Heq : Qeq_bool (Rational_value this) (Rational_value that)
                = (numerator this * denominator that
                   =? numerator that * denominator this)).
  { apply eq_true_iff_eq.
    rewrite Qeq_bool_iff, Rational_value_eq, Z.eqb_eq by assumption.
    reflexivity. }
  rewrite Heq, !Hle by assumption.
  destruct (Rational_compare_cross this that H1 H2)
    as (-> & -> & -> & -> & ->).
  rewrite !Z.ltb_antisym. repeat split.
Qed.

Lemma Rational_comparisons_witness :
  Rational_ok (mkRational 2 4) /\ Rational_ok (mkRational (-3) 6)
  /\ Rational_equalTo (mkRational 2 4) (mkRational (-3) 6) = Return false
  /\ Rational_greaterThan (mkRational 2 4) (mkRational (-3) 6) = Return true.
Proof.
  assert (H1 : Rational_ok (mkRational 2 4)) by (unfold Rational_ok; simpl; lia).
  assert (H2 : Rational_ok (mkRational (-3) 6))
    by (unfold Rational_ok; simpl; lia).
  split; [exact H1|]. split; [exact H2|].
  destruct (Rational_comparisons _ _ H1 H2) as (E & _ & _ & G & _).
  split; [exact E|exact G].
Defined.

Lemma Rational_plus_for_spec those : forall n d,
  0 < d -> Forall Rational_ok those ->
  exists n' d',
    Rational_plus_for n d those = Return (n', d') /\ 0 < d'
    /\ d' = commonDenominator d those
    /\ (Rational_value (mkRational n' d')
        == Rational_value (mkRational n d) + Rational_sum those)%Q.
Proof.
  induction those as [|that rest IH]; intros n d Hd Hok.
  - exists n, d. repeat split; try assumption.
    simpl. now rewrite Qplus_0_r.
  - inversion Hok as [|? ? Hthat Hrest]; subst. unfold Rational_ok in Hthat.
    destruct (alignment _ _ Hd Hthat)
      as (g & u & v & Hg & Hu & Hv & E1 & E2 & El & Hlcm & Hdu & Hdv).
    cbn [Rational_plus_for]. rewrite Hlcm. simpl. rewrite Hdu, Hdv. simpl.
    destruct (IH (n * u + numerator that * v) (d * u) ltac:(nia) Hrest)
      as (n' & d' & -> & Hd' & Hcd & Hval).
    exists n', d'. repeat split; try assumption.
    + unfold commonDenominator in *. simpl. now rewrite El.
    + rewrite Hval. unfold Rational_sum. simpl.
      rewrite Qplus_assoc. apply Qplus_comp; [|reflexivity].
      unfold Rational_value. simpl. rewrite E1, E2.
      rewrite inject_Z_plus, !inject_Z_mult. field.
      repeat split; apply inject_Z_nonzero; lia.
Qed.

(** X7. [plus] on Rationals is exact: it returns the fraction whose value is the sum of the
    values, over the least common multiple of the denominators (it does not
    reduce it). *)
Theorem Rational_plus_exact (this : Rational) (those : list Rational) :
  Rational_ok this -> Forall Rational_ok those ->
  exists total,
    Rational_plus this those = Return total /\ Rational_ok total
    /\ denominator total = commonDenominator (denominator this) those
    /\ (Rational_value total == Rational_value this + Rational_sum those)%Q.
Proof.
  intros Hthis Hthose.
  destruct (Rational_plus_for_spec those (numerator this) (denominator this)
              Hthis Hthose) as (n' & d' & E & Hd' & Hcd & Hval).
  exists (mkRational n' d'). unfold Rational_plus. rewrite E. simpl.
  rewrite Rational_new_ok by assumption.
  repeat split; assumption.
Qed.

Lemma Rational_plus_exact_witness :
  Rational_ok (mkRational 1 6)
  /\ Forall Rational_ok [mkRational 3 4; mkRational (-1) 10]
  /\ exists total,
      Rational_plus (mkRational 1 6) [mkRational 3 4; mkRational (-1) 10]
      = Return total /\ Rational_ok total
      /\ denominator total
         = commonDenominator 6 [mkRational 3 4; mkRational (-1) 10]
      /\ (Rational_value total
          == Rational_value (mkRational 1 6)
             + Rational_sum [mkRational 3 4; mkRational (-1) 10])%Q.
Proof.
  assert (H : Rational_ok (mkRational 1 6)) by (unfold Rational_ok; simpl; lia).
  assert (Hs : Forall Rational_ok [mkRational 3 4; mkRational (-1) 10])
    by (repeat constructor; unfold Rational_ok; simpl; lia).
  split; [exact H|]. split; [exact Hs|].
  exact (Rational_plus_exact _ _ H Hs).
Defined.

Lemma Rational_minus_for_spec those : forall n d,
  0 < d -> Forall Rational_ok those ->
  exists n' d',
    Rational_minus_for n d those = Return (n', d') /\ 0 < d'
    /\ d' = commonDenominator d those
    /\ (Rational_value (mkRational n' d')
        == Rational_value (mkRational n d) - Rational_sum those)%Q.
Proof.
  induction those as [|that rest IH]; intros n d Hd Hok.
  - exists n, d. repeat split; try assumption.
    simpl. unfold Qminus. now rewrite Qplus_0_r.
  - inversion Hok as [|? ? Hthat Hrest]; subst. unfold Rational_ok in Hthat.
    destruct (alignment _ _ Hd Hthat)
      as (g & u & v & Hg & Hu & Hv & E1 & E2 & El & Hlcm & Hdu & Hdv).
    cbn [Rational_minus_for]. rewrite Hlcm. simpl. rewrite Hdu. simpl.
    assert (Hq : bigint_div (numerator that * (d * u)) (denominator that)
                 = Return (numerator that * v)).
    { unfold bigint_div. destruct (Z.eqb_spec (denominator that) 0); [lia|].
      f_equal. replace (numerator that * (d * u))
        with (numerator that * v * denominator that) by nia.
      apply Z.quot_mul. lia. }
    rewrite Hq. simpl.
    destruct (IH (n * u - numerator that * v) (d * u) ltac:(nia) Hrest)
      as (n' & d' & -> & Hd' & Hcd & Hval).
    exists n', d'. repeat split; try assumption.
    + unfold commonDenominator in *. simpl. now rewrite El.
    + rewrite Hval. unfold Rational_sum. simpl.
      unfold Rational_value. simpl. rewrite E1, E2.
      unfold Z.sub. rewrite inject_Z_plus, inject_Z_opp, !inject_Z_mult. field.
      repeat split; apply inject_Z_nonzero; lia.
Qed.

(** X8. [minus] on Rationals is exact: the value of what it returns is the value of [this]
    less the values of the others, over the least common denominator. *)
Theorem Rational_minus_exact (this : Rational) (those : list Rational) :
  Rational_ok this -> Forall Rational_ok those ->
  exists difference,
    Rational_minus this those = Return difference /\ Rational_ok difference
    /\ denominator difference = commonDenominator (denominator this) those
    /\ (Rational_value difference
        == Rational_value this - Rational_sum those)%Q.
Proof.
  intros Hthis Hthose.
  destruct (Rational_minus_for_spec those (numerator this) (denominator this)
              Hthis Hthose) as (n' & d' & E & Hd' & Hcd & Hval).
  exists (mkRational n' d'). unfold Rational_minus. rewrite E. simpl.
  rewrite Rational_new_ok by assumption.
  repeat split; assumption.
Qed.

Lemma Rational_minus_exact_witness :
  Rational_ok (mkRational 1 6)
  /\ Forall Rational_ok [mkRational 3 4; mkRational (-1) 10]
  /\ exists difference,
      Rational_minus (mkRational 1 6) [mkRational 3 4; mkRational (-1) 10]
      = Return difference /\ Rational_ok difference
      /\ denominator difference
         = commonDenominator 6 [mkRational 3 4; mkRational (-1) 10]
      /\ (Rational_value difference
          == Rational_value (mkRational 1 6)
             - Rational_sum [mkRational 3 4; mkRational (-1) 10])%Q.
Proof.
  assert (H : Rational_ok (mkRational 1 6)) by (unfold Rational_ok; simpl; lia).
  assert (Hs : Forall Rational_ok [mkRational 3 4; mkRational (-1) 10])
    by (repeat constructor; unfold Rational_ok; simpl; lia).
  split; [exact H|]. split; [exact Hs|].
  exact (Rational_minus_exact _ _ H Hs).
Defined.

Lemma Rational_times_fold those : forall n d,
  0 < d -> Forall Rational_ok those ->
  exists n' d',
    fold_left
      (fun '(n, d) that => (n * numerator that, d * denominator that))
      those (n, d) = (n', d')
    /\ 0 < d'
    /\ (Rational_value (mkRational n' d')
        == Rational_value (mkRational n d) * Rational_product those)%Q.
Proof.
  induction those as [|that rest IH]; intros n d Hd Hok.
  - exists n, d. repeat split; try assumption. simpl. now rewrite Qmult_1_r.
  - inversion Hok as [|? ? Hthat Hrest]; subst. unfold Rational_ok in Hthat.
    destruct (IH (n * numerator that) (d * denominator that) ltac:(nia) Hrest)
      as (n' & d' & E & Hd' & Hval).
    exists n', d'. repeat split; try assumption.
    rewrite Hval. unfold Rational_product. simpl.
    rewrite Qmult_assoc. apply Qmult_comp; [|reflexivity].
    unfold Rational_value. simpl. rewrite !inject_Z_mult. field.
    split; apply inject_Z_nonzero; lia.
Qed.

(** X9. [times] on Rationals is exact: numerators and denominators are multiplied, and the
    value of the result is the product of the values. *)
Theorem Rational_times_exact (this : Rational) (those : list Rational) :
  Rational_ok this -> Forall Rational_ok those ->
  exists product,
    Rational_times this those = Return product /\ Rational_ok product
    /\ (Rational_value product
        == Rational_value this * Rational_product those)%Q.
Proof.
  intros Hthis Hthose.
  destruct (Rational_times_fold those (numerator this) (denominator this)
              Hthis Hthose) as (n' & d' & E & Hd' & Hval).
  exists (mkRational n' d'). unfold Rational_times. rewrite E.
  rewrite Rational_new_ok by assumption.
  repeat split; assumption.
Qed.

Lemma Rational_times_exact_witness :
  Rational_ok (mkRational 2 3)
  /\ Forall Rational_ok [mkRational (-3) 4; mkRational 0 5]
  /\ exists product,
      Rational_times (mkRational 2 3) [mkRational (-3) 4; mkRational 0 5]
      = Return product /\ Rational_ok product
      /\ (Rational_value product
          == Rational_value (mkRational 2 3)
             * Rational_product [mkRational (-3) 4; mkRational 0 5])%Q.
Proof.
  assert (H : Rational_ok (mkRational 2 3)) by (unfold Rational_ok; simpl; lia).
  assert (Hs : Forall Rational_ok [mkRational (-3) 4; mkRational 0 5])
    by (repeat constructor; unfold Rational_ok; simpl; lia).
  split; [exact H|]. split; [exact Hs|].
  exact (Rational_times_exact _ _ H Hs).
Defined.

(** X10. [inverse] of a Rational throws on zero, through the constructor, which is handed the
    denominator [0]; on anything else it returns the reciprocal, with the
    sign moved to the numerator, and [a.times(a.inverse())] equals one. *)
Theorem Rational_inverse_spec (this : Rational) :
  Rational_ok this ->
  match Rational_inverse this with
  | Return reciprocal =>
      numerator this <> 0 /\ Rational_ok reciprocal
      /\ (Rational_value reciprocal == / Rational_value this)%Q
      /\ (product <- Rational_times this [reciprocal] ;;
          Rational_equalTo product (mkRational 1 1)) = Return true
  | Throw e =>
      numerator this = 0
      /\ e = RangeError
               "Rational denominator must be greater than zero, received 0."
               (Some ("denominator", IBigInt 0))
  | OutOfFuel => False
  end.
Proof.
  destruct this as [n d]. unfold Rational_ok, Rational_inverse. simpl.
  intros Hd.
  assert (Hone : forall n' d', 0 < d' -> n' = d' ->
             Rational_equalTo (mkRational n' d') (mkRational 1 1)
             = Return true).
  { intros n' d' Hd' ->.
    destruct (Rational_compare_cross (mkRational d' d') (mkRational 1 1))
      as (-> & _); try (unfold Rational_ok; simpl; lia).
    cbn [numerator denominator]. f_equal. apply Z.eqb_eq. lia. }
  destruct (Z.geb_spec n 0) as [Hge|Hlt].
  - destruct (Z.eq_dec n 0) as [->|Hnz];
      [rewrite Rational_new_bigint; now split|].
    rewrite Rational_new_ok by lia.
    repeat split; try assumption; try (simpl; lia).
    + unfold Rational_value. simpl. field.
      split; apply inject_Z_nonzero; lia.
    + rewrite Rational_times_one. simpl. rewrite Rational_new_ok by nia.
      simpl. apply Hone; [nia|ring].
  - rewrite Rational_new_ok by lia.
    repeat split; try assumption; try (simpl; lia).
    + unfold Rational_value. simpl. rewrite !inject_Z_opp. field.
      split; apply inject_Z_nonzero; lia.
    + rewrite Rational_times_one. simpl. rewrite Rational_new_ok by nia.
      simpl. apply Hone; [nia|ring].
Qed.

Lemma Rational_inverse_spec_witness :
  Rational_ok (mkRational (-2) 3)
  /\ Rational_inverse (mkRational (-2) 3) = Return (mkRational (-3) 2)
  /\ match Rational_inverse (mkRational (-2) 3) with
     | Return reciprocal =>
         numerator (mkRational (-2) 3) <> 0 /\ Rational_ok reciprocal
         /\ (Rational_value reciprocal
             == / Rational_value (mkRational (-2) 3))%Q
         /\ (product <- Rational_times (mkRational (-2) 3) [reciprocal] ;;
             Rational_equalTo product (mkRational 1 1)) = Return true
     | Throw e =>
         numerator (mkRational (-2) 3) = 0
         /\ e = RangeError
                  "Rational denominator must be greater than zero, received 0."
                  (Some ("denominator", IBigInt 0))
     | OutOfFuel => False
     end.
Proof.
  assert (H : Rational_ok (mkRational (-2) 3))
    by (unfold Rational_ok; simpl; lia).
  split; [exact H|]. split; [reflexivity|].
  exact (Rational_inverse_spec _ H).
Defined.

(** X11. On Rationals, [minus] is [plus] of the [negation]: the same fields, not only the
    same value. *)
Theorem Rational_minus_plus_negation (this that : Rational) :
  Rational_ok this -> Rational_ok that ->
  Rational_minus this [that]
  = (opposite <- Rational_negation that ;; Rational_plus this [opposite]).
Proof.
  unfold Rational_ok. intros H1 H2.
  unfold Rational_negation. rewrite Rational_new_ok by assumption. simpl.
  unfold Rational_minus, Rational_plus. simpl.
  destruct (alignment _ _ H1 H2)
    as (g & u & v & Hg & Hu & Hv & E1 & E2 & El & Hlcm & Hdu & Hdv).
  rewrite Hlcm. simpl. rewrite Hdu, Hdv. simpl.
  assert (Hq : bigint_div (numerator that * (denominator this * u))
                 (denominator that) = Return (numerator that * v)).
  { unfold bigint_div. destruct (Z.eqb_spec (denominator that) 0); [lia|].
    f_equal. replace (numerator that * (denominator this * u))
      with (numerator that * v * denominator that) by nia.
    apply Z.quot_mul. lia. }
  rewrite Hq. simpl. do 2 f_equal. ring.
Qed.

Lemma Rational_minus_plus_negation_witness :
  Rational_ok (mkRational 1 6) /\ Rational_ok (mkRational 3 4)
  /\ Rational_minus (mkRational 1 6) [mkRational 3 4]
     = (opposite <- Rational_negation (mkRational 3 4) ;;
        Rational_plus (mkRational 1 6) [opposite]).
Proof.
  assert (H1 : Rational_ok (mkRational 1 6)) by (unfold Rational_ok; simpl; lia).
  assert (H2 : Rational_ok (mkRational 3 4)) by (unfold Rational_ok; simpl; lia).
  split; [exact H1|]. split; [exact H2|].
  exact (Rational_minus_plus_negation _ _ H1 H2).
Defined.

(** X12. [max] and [min] of Rationals return one of the two arguments, the one with the
    larger, respectively the smaller, value; on equal values both return
    the argument, not the receiver. *)
Theorem Rational_max_min (this that : Rational) :
  Rational_ok this -> Rational_ok that ->
  exists greater less,
    Rational_max this that = Return greater
    /\ Rational_min this that = Return less
    /\ (greater = this \/ greater = that) /\ (less = this \/ less = that)
    /\ (Rational_value this <= Rational_value greater)%Q
    /\ (Rational_value that <= Rational_value greater)%Q
    /\ (Rational_value less <= Rational_value this)%Q
    /\ (Rational_value less <= Rational_value that)%Q
    /\ ((Rational_value this == Rational_value that)%Q ->
        greater = that /\ less = that).
Proof.
  intros H1 H2. unfold Rational_max, Rational_min.
  destruct (Rational_compare_cross this that H1 H2)
    as (_ & -> & _ & -> & _). simpl.
  pose proof (Rational_value_le this that H1 H2) as Hle.
  pose proof (Rational_value_le that this H2 H1) as Hge.
  pose proof (Rational_value_eq this that H1 H2) as Heq.
  do 2 eexists. split; [reflexivity|]. split; [reflexivity|].
  destruct (Z.ltb_spec (numerator that * denominator this)
              (numerator this * denominator that));
    destruct (Z.ltb_spec (numerator this * denominator that)
                (numerator that * denominator this));
    repeat split; auto; try apply Qle_refl;
      try (apply Hle; lia); try (apply Hge; lia);
      try (match goal with
           | E : (_ == _)%Q |- _ => apply Heq in E; lia
           end).
Qed.

Lemma Rational_max_min_witness :
  Rational_ok (mkRational 1 2) /\ Rational_ok (mkRational 2 4)
  /\ Rational_max (mkRational 1 2) (mkRational 2 4) = Return (mkRational 2 4)
  /\ Rational_min (mkRational 1 2) (mkRational 2 4) = Return (mkRational 2 4)
  /\ exists greater less,
      Rational_max (mkRational 1 2) (mkRational 2 4) = Return greater
      /\ Rational_min (mkRational 1 2) (mkRational 2 4) = Return less
      /\ (greater = mkRational 1 2 \/ greater = mkRational 2 4)
      /\ (less = mkRational 1 2 \/ less = mkRational 2 4)
      /\ (Rational_value (mkRational 1 2) <= Rational_value greater)%Q
      /\ (Rational_value (mkRational 2 4) <= Rational_value greater)%Q
      /\ (Rational_value less <= Rational_value (mkRational 1 2))%Q
      /\ (Rational_value less <= Rational_value (mkRational 2 4))%Q
      /\ ((Rational_value (mkRational 1 2)
           == Rational_value (mkRational 2 4))%Q ->
          greater = mkRational 2 4 /\ less = mkRational 2 4).
Proof.
  assert (H1 : Rational_ok (mkRational 1 2)) by (unfold Rational_ok; simpl; lia).
  assert (H2 : Rational_ok (mkRational 2 4)) by (unfold Rational_ok; simpl; lia).
  split; [exact H1|]. split; [exact H2|].
  split; [reflexivity|]. split; [reflexivity|].
  exact (Rational_max_min _ _ H1 H2).
Defined.

Lemma split_without c s : without c s = true -> split c s = [s].
Proof.
  induction s as [|c' s IH]; simpl; [reflexivity|].
  intros H. apply andb_prop in H as [Hc Hs].
  apply negb_true_iff in Hc. rewrite Hc, (IH Hs). reflexivity.
Qed.

Lemma split_append c s1 s2 :
  without c s1 = true ->
  split c (s1 ++ String c s2) = s1 :: split c s2.
Proof.
  induction s1 as [|c' s1 IH]; simpl.
  - intros _. now rewrite Ascii.eqb_refl.
  - intros H. apply andb_prop in H as [Hc Hs].
    apply negb_true_iff in Hc. rewrite Hc, (IH Hs). reflexivity.
Qed.

Lemma without_uint c d :
  digitValue c = None -> without c (NilEmpty.string_of_uint d) = true.
Proof.
  intros Hc.
  induction d; cbn [NilEmpty.string_of_uint without]; rewrite ?IHd;
    try reflexivity;
    match goal with
    | |- negb (Ascii.eqb ?a c) && true = true =>
        destruct (Ascii.eqb_spec a c) as [<-|];
        [discriminate Hc|reflexivity]
    end.
Qed.

(** The decimal literal of a bigint holds digits and at most a sign. *)
Lemma without_bigint c z :
  digitValue c = None -> c <> "-"%char ->
  without c (String_of_bigint z) = true.
Proof.
  intros Hc Hsign. unfold String_of_bigint.
  destruct z as [|p|p]; cbn [Z.to_int NilZero.string_of_int].
  - change (NilZero.string_of_uint Decimal.zero) with "0".
    cbn [without].
    destruct (Ascii.eqb_spec "0" c) as [<-|]; [discriminate Hc|reflexivity].
  - unfold NilZero.string_of_uint. pose proof (uint_of_pos_not_Nil p).
    destruct (Pos.to_uint p) eqn:E; [contradiction|rewrite <- E..];
      now apply without_uint.
  - cbn [without].
    destruct (Ascii.eqb_spec "-" c) as [<-|]; [contradiction|].
    cbn [negb andb].
    unfold NilZero.string_of_uint. pose proof (uint_of_pos_not_Nil p).
    destruct (Pos.to_uint p) eqn:E; [contradiction|rewrite <- E..];
      now apply without_uint.
Qed.

(** [Integer] reads the decimal literal of a bigint back. *)
Lemma Integer_String_of_bigint z :
  Integer (IString (String_of_bigint z)) = Return z.
Proof. exact (Integer_bigint z). Qed.

(** X13. [Rational.fromString] undoes [toString]: the text ["n/d"] of a Rational is
    read back as the same numerator and denominator. *)
Theorem Rational_fromString_toString (r : Rational) :
  Rational_ok r -> Rational_fromString (Rational_toString r) = Return r.
Proof.
  destruct r as [n d]. unfold Rational_ok. simpl. intros Hd.
  unfold Rational_fromString, Rational_toString. simpl.
  rewrite split_append, split_without
    by (apply without_bigint; [reflexivity|discriminate]).
  simpl. rewrite !Integer_String_of_bigint. simpl.
  now apply Rational_new_ok.
Qed.

Lemma Rational_fromString_toString_witness :
  Rational_ok (mkRational (-22) 7)
  /\ Rational_toString (mkRational (-22) 7) = "-22/7"
  /\ Rational_fromString (Rational_toString (mkRational (-22) 7))
     = Return (mkRational (-22) 7).
Proof.
  assert (H : Rational_ok (mkRational (-22) 7))
    by (unfold Rational_ok; simpl; lia).
  split; [exact H|]. split; [reflexivity|].
  exact (Rational_fromString_toString _ H).
Defined.

(** X14. [Rational.fromString]: with no [/] in it, the text is a numerator over the default
    denominator [1].  With a [/] and nothing behind it there is no
    default: the empty denominator is refused by [Integer]; and a zero
    denominator is refused by the constructor. *)
Theorem Rational_fromString_default (z : Z) :
  Rational_fromString (String_of_bigint z) = Return (mkRational z 1)
  /\ (exists message,
        Rational_fromString (String_of_bigint z ++ "/")
        = Throw (SyntaxError message))
  /\ (exists message cause,
        Rational_fromString (String_of_bigint z ++ "/0")
        = Throw (RangeError message cause)).
Proof.
  assert (Hw : without "/" (String_of_bigint z) = true)
    by (apply without_bigint; [reflexivity|discriminate]).
  unfold Rational_fromString. repeat split.
  - rewrite split_without by assumption.
    cbn [hd nth]. rewrite Integer_String_of_bigint.
    change (Integer (IString "1")) with (@Return Z 1). cbn [bind].
    apply Rational_new_ok. lia.
  - rewrite split_append by assumption. cbn [split hd nth].
    rewrite Integer_String_of_bigint. cbn [bind].
    eexists. reflexivity.
  - rewrite split_append by assumption.
    change (split "/" "0") with ["0"]. cbn [hd nth].
    rewrite Integer_String_of_bigint.
    change (Integer (IString "0")) with (@Return Z 0). cbn [bind].
    rewrite Rational_new_bigint. do 2 eexists. reflexivity.
Qed.

(** X15. [fromJSON] undoes [toJSON], for both classes. *)
Theorem fromJSON_toJSON (r : Rational) (d : Decimal) :
  Rational_ok r -> Decimal_ok d ->
  Rational_fromJSON (Rational_toJSON r) = Return r
  /\ Decimal_fromJSON (Decimal_toJSON d) = Return d.
Proof.
  destruct r as [n m], d as [z s]. unfold Rational_ok, Decimal_ok. simpl.
  intros Hm Hs.
  unfold Rational_fromJSON, Rational_toJSON, Decimal_fromJSON, Decimal_toJSON.
  simpl. rewrite !Integer_String_of_bigint. simpl.
  split; [now apply Rational_new_ok|now apply Decimal_new_ok].
Qed.

Lemma fromJSON_toJSON_witness :
  Rational_ok (mkRational (-22) 7) /\ Decimal_ok (mkDecimal (-314) 2)
  /\ Rational_fromJSON (Rational_toJSON (mkRational (-22) 7))
     = Return (mkRational (-22) 7)
  /\ Decimal_fromJSON (Decimal_toJSON (mkDecimal (-314) 2))
     = Return (mkDecimal (-314) 2).
Proof.
  assert (H1 : Rational_ok (mkRational (-22) 7))
    by (unfold Rational_ok; simpl; lia).
  assert (H2 : Decimal_ok (mkDecimal (-314) 2))
    by (unfold Decimal_ok; simpl; lia).
  split; [exact H1|]. split; [exact H2|].
  exact (fromJSON_toJSON _ _ H1 H2).
Defined.

(** ** decimal.js *)

Lemma pow10_pos k : 0 <= k -> 0 < 10 ^ k.
Proof. intros. now apply Z.pow_pos_nonneg. Qed.

Lemma pow10_split m s : 0 <= s <= m -> 10 ^ m = 10 ^ (m - s) * 10 ^ s.
Proof. intros H. rewrite <- Z.pow_add_r by lia. f_equal. lia. Qed.

Lemma bigint_pow_ok k : 0 <= k -> bigint_pow 10 k = Return (10 ^ k).
Proof.
  intros H. unfold bigint_pow. destruct (Z.ltb_spec k 0); [lia|reflexivity].
Qed.

(** The value of a Decimal over a larger power of ten. *)
Lemma Decimal_value_common (d : Decimal) m :
  0 <= scale d <= m ->
  (Decimal_value d == digits d * 10 ^ (m - scale d) # Z.to_pos (10 ^ m))%Q.
Proof.
  destruct d as [n s]. simpl. intros H.
  change (Decimal_value (mkDecimal n s))
    with (Rational_value (mkRational n (10 ^ s))).
  rewrite Rational_value_Qmake by (apply pow10_pos; lia).
  unfold Qeq. simpl.
  rewrite !Z2Pos.id by (apply pow10_pos; lia).
  rewrite (pow10_split m s) by lia. ring.
Qed.

(** [toScale] to a scale that is not smaller multiplies by the power of
    ten. *)
Lemma Decimal_toScale_up (this : Decimal) t :
  Decimal_ok this -> scale this <= t ->
  exists x, Decimal_toScale this (IBigInt t) = Return x
            /\ scale x = t
            /\ digits x = digits this * 10 ^ (t - scale this).
Proof.
  unfold Decimal_ok. intros Hok Hle. unfold Decimal_toScale.
  rewrite Integer_bigint. simpl.
  destruct (Z.gtb_spec (t - scale this) 0) as [Hgt|Hngt].
  - rewrite bigint_pow_ok by lia. simpl.
    rewrite Decimal_new_ok by lia. eexists. repeat split.
  - destruct (Z.ltb_spec (t - scale this) 0); [lia|].
    exists this. replace (t - scale this) with 0 by lia.
    repeat split; [lia|simpl; lia].
Qed.

(** The five comparisons compare the digits over the larger scale. *)
Lemma Decimal_compare_aligned (this that : Decimal) predicate :
  Decimal_ok this -> Decimal_ok that ->
  exists x y,
    Decimal_compare this that predicate = Return (predicate x y)
    /\ digits x
       = digits this * 10 ^ (Z.max (scale this) (scale that) - scale this)
    /\ digits y
       = digits that * 10 ^ (Z.max (scale this) (scale that) - scale that).
Proof.
  intros H1 H2. unfold Decimal_compare.
  replace (max (scale this) (scale that))
    with (Z.max (scale this) (scale that))
    by (unfold max; rewrite Z.gtb_ltb;
        destruct (Z.ltb_spec (scale that) (scale this)); lia).
  destruct (Decimal_toScale_up this (Z.max (scale this) (scale that)) H1
              ltac:(lia)) as (x & -> & _ & Hx).
  destruct (Decimal_toScale_up that (Z.max (scale this) (scale that)) H2
              ltac:(lia)) as (y & -> & _ & Hy).
  simpl. eauto.
Qed.

(** X16. The five comparisons of Decimals return, and what they return is the comparison of
    the two values, whatever the scales. *)
Theorem Decimal_comparisons (this that : Decimal) :
  Decimal_ok this -> Decimal_ok that ->
  Decimal_equalTo this that
  = Return (Qeq_bool (Decimal_value this) (Decimal_value that))
  /\ Decimal_lessThan this that
     = Return (negb (Qle_bool (Decimal_value that) (Decimal_value this)))
  /\ Decimal_lessThanOrEqualTo this that
     = Return (Qle_bool (Decimal_value this) (Decimal_value that))
  /\ Decimal_greaterThan this that
     = Return (negb (Qle_bool (Decimal_value this) (Decimal_value that)))
  /\ Decimal_greaterThanEqualTo this that
     = Return (Qle_bool (Decimal_value that) (Decimal_value this)).
Proof.
  intros H1 H2. pose proof H1 as H1'. pose proof H2 as H2'.
  unfold Decimal_ok in H1', H2'.
  set (m := Z.max (scale this) (scale that)).
  set (a := digits this * 10 ^ (m - scale this)).
  set (b := digits that * 10 ^ (m - scale that)).
  assert (Ha : (Decimal_value this == a # Z.to_pos (10 ^ m))%Q)
    by (apply Decimal_value_common; lia).
  assert (Hb : (Decimal_value that == b # Z.to_pos (10 ^ m))%Q)
    by (apply Decimal_value_common; lia).
  assert (Heq : Qeq_bool (Decimal_value this) (Decimal_value that) = (a =? b)).
  { apply eq_true_iff_eq. rewrite Qeq_bool_iff, Ha, Hb, Z.eqb_eq.
    unfold Qeq. simpl. split; [|now intros ->].
    intros E. apply Z.mul_cancel_r in E; lia. }
  assert (Hle : Qle_bool (Decimal_value this) (Decimal_value that) = (a <=? b)).
  { apply eq_true_iff_eq. rewrite Qle_bool_iff, Ha, Hb, Z.leb_le.
    unfold Qle. simpl. symmetry. apply Z.mul_le_mono_pos_r. lia. }
  assert (Hge : Qle_bool (Decimal_value that) (Decimal_value this) = (b <=? a)).
  { apply eq_true_iff_eq. rewrite Qle_bool_iff, Ha, Hb, Z.leb_le.
    unfold Qle. simpl. symmetry. apply Z.mul_le_mono_pos_r. lia. }
  rewrite Heq, Hle, Hge.
  unfold Decimal_equalTo, Decimal_lessThan, Decimal_lessThanOrEqualTo,
    Decimal_greaterThan, Decimal_greaterThanEqualTo.
  repeat split;
    match goal with
    | |- Decimal_compare _ _ ?p = _ =>
        destruct (Decimal_compare_aligned this that p H1 H2)
          as (x & y & -> & Hx & Hy)
    end; fold m in Hx, Hy; fold a in Hx; fold b in Hy; rewrite Hx, Hy;
    rewrite ?Z.gtb_ltb, ?Z.geb_leb, ?Z.ltb_antisym; reflexivity.
Qed.

Lemma Decimal_comparisons_witness :
  Decimal_ok (mkDecimal 150 2) /\ Decimal_ok (mkDecimal 15 1)
  /\ Decimal_equalTo (mkDecimal 150 2) (mkDecimal 15 1) = Return true
  /\ Decimal_lessThan (mkDecimal 150 2) (mkDecimal 15 1) = Return false.
Proof.
  assert (H1 : Decimal_ok (mkDecimal 150 2)) by (unfold Decimal_ok; simpl; lia).
  assert (H2 : Decimal_ok (mkDecimal 15 1)) by (unfold Decimal_ok; simpl; lia).
  split; [exact H1|]. split; [exact H2|].
  destruct (Decimal_comparisons _ _ H1 H2) as (E & L & _).
  split; [exact E|exact L].
Defined.

Lemma Decimal_value_mk n s :
  Decimal_value (mkDecimal n s) = (inject_Z n / inject_Z (10 ^ s))%Q.
Proof. reflexivity. Qed.

Lemma Decimal_plus_for_spec those : forall n s,
  0 <= s -> Forall Decimal_ok those ->
  exists n' s',
    Decimal_plus_for n s those = Return (n', s') /\ 0 <= s'
    /\ s' = largestScale s those
    /\ (Decimal_value (mkDecimal n' s')
        == Decimal_value (mkDecimal n s) + Decimal_sum those)%Q.
Proof.
  induction those as [|that rest IH]; intros n s Hs Hok.
  - exists n, s. repeat split; try assumption.
    simpl. now rewrite Qplus_0_r.
  - inversion Hok as [|? ? Hthat Hrest]; subst. unfold Decimal_ok in Hthat.
    cbn [Decimal_plus_for].
    destruct (Z.gtb_spec s (scale that)) as [Hgt|Hle];
      rewrite bigint_pow_ok by lia; cbn [bind].
    + destruct (IH (n + digits that * 10 ^ (s - scale that)) s Hs Hrest)
        as (n' & s' & -> & Hs' & Hmax & Hval).
      exists n', s'. repeat split; try assumption.
      * unfold largestScale in *. simpl. now rewrite Z.max_l by lia.
      * rewrite Hval. unfold Decimal_sum. simpl.
        rewrite Qplus_assoc. apply Qplus_comp; [|reflexivity].
        destruct that as [n2 s2]. simpl in *. rewrite !Decimal_value_mk.
        rewrite (pow10_split s s2) by lia.
        pose proof (pow10_pos (s - s2) ltac:(lia)).
        pose proof (pow10_pos s2 ltac:(lia)).
        rewrite inject_Z_plus, !inject_Z_mult. field.
        split; apply inject_Z_nonzero; lia.
    + destruct (IH (n * 10 ^ (scale that - s) + digits that) (scale that)
                  Hthat Hrest) as (n' & s' & -> & Hs' & Hmax & Hval).
      exists n', s'. repeat split; try assumption.
      * unfold largestScale in *. simpl. now rewrite Z.max_r by lia.
      * rewrite Hval. unfold Decimal_sum. simpl.
        rewrite Qplus_assoc. apply Qplus_comp; [|reflexivity].
        destruct that as [n2 s2]. simpl in *. rewrite !Decimal_value_mk.
        rewrite (pow10_split s2 s) by lia.
        pose proof (pow10_pos (s2 - s) ltac:(lia)).
        pose proof (pow10_pos s ltac:(lia)).
        rewrite inject_Z_plus, !inject_Z_mult. field.
        split; apply inject_Z_nonzero; lia.
Qed.

(** X17. [plus] on Decimals is exact: the result has the largest of the scales, and its
    value is the sum of the values. *)
Theorem Decimal_plus_exact (this : Decimal) (those : list Decimal) :
  Decimal_ok this -> Forall Decimal_ok those ->
  exists total,
    Decimal_plus this those = Return total /\ Decimal_ok total
    /\ scale total = largestScale (scale this) those
    /\ (Decimal_value total == Decimal_value this + Decimal_sum those)%Q.
Proof.
  intros Hthis Hthose.
  destruct (Decimal_plus_for_spec those (digits this) (scale this)
              Hthis Hthose) as (n' & s' & E & Hs' & Hmax & Hval).
  exists (mkDecimal n' s'). unfold Decimal_plus. rewrite E. simpl.
  rewrite Decimal_new_ok by assumption.
  repeat split; assumption.
Qed.

Lemma Decimal_plus_exact_witness :
  Decimal_ok (mkDecimal 1 1)
  /\ Forall Decimal_ok [mkDecimal 2 1; mkDecimal (-125) 3]
  /\ Decimal_plus (mkDecimal 1 1) [mkDecimal 2 1; mkDecimal (-125) 3]
     = Return (mkDecimal 175 3)
  /\ exists total,
      Decimal_plus (mkDecimal 1 1) [mkDecimal 2 1; mkDecimal (-125) 3]
      = Return total /\ Decimal_ok total
      /\ scale total = largestScale 1 [mkDecimal 2 1; mkDecimal (-125) 3]
      /\ (Decimal_value total
          == Decimal_value (mkDecimal 1 1)
             + Decimal_sum [mkDecimal 2 1; mkDecimal (-125) 3])%Q.
Proof.
  assert (H : Decimal_ok (mkDecimal 1 1)) by (unfold Decimal_ok; simpl; lia).
  assert (Hs : Forall Decimal_ok [mkDecimal 2 1; mkDecimal (-125) 3])
    by (repeat constructor; unfold Decimal_ok; simpl; lia).
  split; [exact H|]. split; [exact Hs|]. split; [reflexivity|].
  exact (Decimal_plus_exact _ _ H Hs).
Defined.

Lemma Decimal_minus_for_spec those : forall n s,
  0 <= s -> Forall Decimal_ok those ->
  exists n' s',
    Decimal_minus_for n s those = Return (n', s') /\ 0 <= s'
    /\ s' = largestScale s those
    /\ (Decimal_value (mkDecimal n' s')
        == Decimal_value (mkDecimal n s) - Decimal_sum those)%Q.
Proof.
  induction those as [|that rest IH]; intros n s Hs Hok.
  - exists n, s. repeat split; try assumption.
    simpl. unfold Qminus. now rewrite Qplus_0_r.
  - inversion Hok as [|? ? Hthat Hrest]; subst. unfold Decimal_ok in Hthat.
    cbn [Decimal_minus_for].
    destruct (Z.gtb_spec s (scale that)) as [Hgt|Hle];
      rewrite bigint_pow_ok by lia; cbn [bind].
    + destruct (IH (n - digits that * 10 ^ (s - scale that)) s Hs Hrest)
        as (n' & s' & -> & Hs' & Hmax & Hval).
      exists n', s'. repeat split; try assumption.
      * unfold largestScale in *. simpl. now rewrite Z.max_l by lia.
      * rewrite Hval. unfold Decimal_sum. simpl.
        destruct that as [n2 s2]. simpl in *. rewrite !Decimal_value_mk.
        rewrite (pow10_split s s2) by lia.
        pose proof (pow10_pos (s - s2) ltac:(lia)).
        pose proof (pow10_pos s2 ltac:(lia)).
        unfold Z.sub at 1.
        rewrite inject_Z_plus, inject_Z_opp, !inject_Z_mult. field.
        split; apply inject_Z_nonzero; lia.
    + destruct (IH (n * 10 ^ (scale that - s) - digits that) (scale that)
                  Hthat Hrest) as (n' & s' & -> & Hs' & Hmax & Hval).
      exists n', s'. repeat split; try assumption.
      * unfold largestScale in *. simpl. now rewrite Z.max_r by lia.
      * rewrite Hval. unfold Decimal_sum. simpl.
        destruct that as [n2 s2]. simpl in *. rewrite !Decimal_value_mk.
        rewrite (pow10_split s2 s) by lia.
        pose proof (pow10_pos (s2 - s) ltac:(lia)).
        pose proof (pow10_pos s ltac:(lia)).
        unfold Z.sub at 1.
        rewrite inject_Z_plus, inject_Z_opp, !inject_Z_mult. field.
        split; apply inject_Z_nonzero; lia.
Qed.

(** X18. [minus] on Decimals is exact, with the largest of the scales. *)
Theorem Decimal_minus_exact (this : Decimal) (those : list Decimal) :
  Decimal_ok this -> Forall Decimal_ok those ->
  exists difference,
    Decimal_minus this those = Return difference /\ Decimal_ok difference
    /\ scale difference = largestScale (scale this) those
    /\ (Decimal_value difference
        == Decimal_value this - Decimal_sum those)%Q.
Proof.
  intros Hthis Hthose.
  destruct (Decimal_minus_for_spec those (digits this) (scale this)
              Hthis Hthose) as (n' & s' & E & Hs' & Hmax & Hval).
  exists (mkDecimal n' s'). unfold Decimal_minus. rewrite E. simpl.
  rewrite Decimal_new_ok by assumption.
  repeat split; assumption.
Qed.

Lemma Decimal_minus_exact_witness :
  Decimal_ok (mkDecimal 3 1)
  /\ Forall Decimal_ok [mkDecimal 3 1; mkDecimal 10 0]
  /\ Decimal_minus (mkDecimal 3 1) [mkDecimal 3 1; mkDecimal 10 0]
     = Return (mkDecimal (-100) 1)
  /\ exists difference,
      Decimal_minus (mkDecimal 3 1) [mkDecimal 3 1; mkDecimal 10 0]
      = Return difference /\ Decimal_ok difference
      /\ scale difference = largestScale 1 [mkDecimal 3 1; mkDecimal 10 0]
      /\ (Decimal_value difference
          == Decimal_value (mkDecimal 3 1)
             - Decimal_sum [mkDecimal 3 1; mkDecimal 10 0])%Q.
Proof.
  assert (H : Decimal_ok (mkDecimal 3 1)) by (unfold Decimal_ok; simpl; lia).
  assert (Hs : Forall Decimal_ok [mkDecimal 3 1; mkDecimal 10 0])
    by (repeat constructor; unfold Decimal_ok; simpl; lia).
  split; [exact H|]. split; [exact Hs|]. split; [reflexivity|].
  exact (Decimal_minus_exact _ _ H Hs).
Defined.

Lemma Decimal_times_fold those : forall n s,
  0 <= s -> Forall Decimal_ok those ->
  exists n' s',
    fold_left (fun '(n, s) that => (n * digits that, s + scale that))
      those (n, s) = (n', s')
    /\ 0 <= s'
    /\ s' = fold_left (fun s that => s + scale that) those s
    /\ (Decimal_value (mkDecimal n' s')
        == Decimal_value (mkDecimal n s) * Decimal_product those)%Q.
Proof.
  induction those as [|that rest IH]; intros n s Hs Hok.
  - exists n, s. repeat split; try assumption. simpl. now rewrite Qmult_1_r.
  - inversion Hok as [|? ? Hthat Hrest]; subst. unfold Decimal_ok in Hthat.
    destruct (IH (n * digits that) (s + scale that) ltac:(lia) Hrest)
      as (n' & s' & E & Hs' & Hsum & Hval).
    exists n', s'. repeat split; try assumption.
    rewrite Hval. unfold Decimal_product. simpl.
    rewrite Qmult_assoc. apply Qmult_comp; [|reflexivity].
    destruct that as [n2 s2]. simpl in *. rewrite !Decimal_value_mk.
    rewrite Z.pow_add_r by assumption.
    pose proof (pow10_pos s Hs). pose proof (pow10_pos s2 Hthat).
    rewrite !inject_Z_mult. field.
    split; apply inject_Z_nonzero; lia.
Qed.

(** X19. [times] on Decimals is exact: digits are multiplied and scales added. *)
Theorem Decimal_times_exact (this : Decimal) (those : list Decimal) :
  Decimal_ok this -> Forall Decimal_ok those ->
  exists product,
    Decimal_times this those = Return product /\ Decimal_ok product
    /\ scale product
       = fold_left (fun s that => s + scale that) those (scale this)
    /\ (Decimal_value product
        == Decimal_value this * Decimal_product those)%Q.
Proof.
  intros Hthis Hthose.
  destruct (Decimal_times_fold those (digits this) (scale this)
              Hthis Hthose) as (n' & s' & E & Hs' & Hsum & Hval).
  exists (mkDecimal n' s'). unfold Decimal_times. rewrite E.
  rewrite Decimal_new_ok by assumption.
  repeat split; assumption.
Qed.

Lemma Decimal_times_exact_witness :
  Decimal_ok (mkDecimal 15 1)
  /\ Forall Decimal_ok [mkDecimal (-2) 0; mkDecimal 25 2]
  /\ Decimal_times (mkDecimal 15 1) [mkDecimal (-2) 0; mkDecimal 25 2]
     = Return (mkDecimal (-750) 3)
  /\ exists product,
      Decimal_times (mkDecimal 15 1) [mkDecimal (-2) 0; mkDecimal 25 2]
      = Return product /\ Decimal_ok product
      /\ scale product
         = fold_left (fun s that => s + scale that)
             [mkDecimal (-2) 0; mkDecimal 25 2] 1
      /\ (Decimal_value product
          == Decimal_value (mkDecimal 15 1)
             * Decimal_product [mkDecimal (-2) 0; mkDecimal 25 2])%Q.
Proof.
  assert (H : Decimal_ok (mkDecimal 15 1)) by (unfold Decimal_ok; simpl; lia).
  assert (Hs : Forall Decimal_ok [mkDecimal (-2) 0; mkDecimal 25 2])
    by (repeat constructor; unfold Decimal_ok; simpl; lia).
  split; [exact H|]. split; [exact Hs|]. split; [reflexivity|].
  exact (Decimal_times_exact _ _ H Hs).
Defined.

Lemma Decimal_simplify_while_stop passes n s :
  (s >? 0) && (Z.rem n 10 =? 0) = false ->
  Decimal_simplify_while passes n s = Some (n, s).
Proof. intros H. destruct passes; simpl; now rewrite H. Qed.

(** The loop of [simplify] ends within [scale] passes, having divided by a
    power of ten, and stops on a scale of zero or on digits that do not end
    in zero. *)
Lemma Decimal_simplify_while_runs passes : forall n s,
  0 <= s <= Z.of_nat (budget_length passes) ->
  exists n' s',
    Decimal_simplify_while passes n s = Some (n', s')
    /\ 0 <= s' <= s /\ n = n' * 10 ^ (s - s')
    /\ (s' >? 0) && (Z.rem n' 10 =? 0) = false.
Proof.
  induction passes as [|rest IH]; intros n s Hs;
    destruct ((s >? 0) && (Z.rem n 10 =? 0)) eqn:E;
    try (exists n, s; rewrite Decimal_simplify_while_stop by assumption;
         rewrite Z.sub_diag, Z.mul_1_r; repeat split; (lia || assumption)).
  - apply andb_prop in E as [E _]. apply Z.gtb_lt in E.
    cbn [budget_length] in Hs. lia.
  - cbn [Decimal_simplify_while]. rewrite E.
    apply andb_prop in E as [Epos Erem].
    apply Z.gtb_lt in Epos. apply Z.eqb_eq in Erem.
    cbn [budget_length] in Hs.
    destruct (IH tt (Z.quot n 10) (s - 1) ltac:(lia))
      as (n' & s' & -> & Hs' & Hn & Hstop).
    exists n', s'. repeat split; try assumption; try lia.
    apply Z.quot_exact in Erem; [|lia]. rewrite Erem, Hn.
    replace (s - s') with (Z.succ (s - 1 - s')) by lia.
    rewrite Z.pow_succ_r by lia. ring.
Qed.

(** X20. [simplify] of a Decimal keeps the value and brings the scale down as far as the
    trailing zeros of the digits allow; what it returns is left alone by
    a second [simplify], and [equalTo] the original. *)
Theorem Decimal_simplify_spec (this : Decimal) :
  Decimal_ok this ->
  exists simple,
    Decimal_simplify this = Return simple
    /\ 0 <= scale simple <= scale this
    /\ digits this = digits simple * 10 ^ (scale this - scale simple)
    /\ (scale simple = 0 \/ Z.rem (digits simple) 10 <> 0)
    /\ (Decimal_value simple == Decimal_value this)%Q
    /\ Decimal_simplify simple = Return simple
    /\ Decimal_equalTo this simple = Return true.
Proof.
  unfold Decimal_ok. intros Hok.
  assert (Hlen : 0 <= scale this
                 <= Z.of_nat (budget_length (budget_of_Z (scale this)))).
  { destruct (Z.eq_dec (scale this) 0) as [->|]; [simpl; lia|].
    rewrite budget_length_of_Z; lia. }
  destruct (Decimal_simplify_while_runs _ (digits this) (scale this) Hlen)
    as (n' & s' & E & Hs' & Hn & Hstop).
  exists (mkDecimal n' s'). unfold Decimal_simplify at 1. rewrite E.
  rewrite Decimal_new_ok by lia. simpl.
  assert (Hval : (Decimal_value (mkDecimal n' s') == Decimal_value this)%Q).
  { destruct this as [n s]. simpl in *. rewrite !Decimal_value_mk, Hn.
    rewrite (pow10_split s s') by lia.
    pose proof (pow10_pos (s - s') ltac:(lia)).
    pose proof (pow10_pos s' ltac:(lia)).
    rewrite !inject_Z_mult. field. split; apply inject_Z_nonzero; lia. }
  repeat split; try assumption; try lia.
  - unfold Decimal_simplify. simpl.
    rewrite Decimal_simplify_while_stop by assumption.
    apply Decimal_new_ok. lia.
  - unfold Decimal_equalTo.
    destruct (Decimal_compare_aligned this (mkDecimal n' s')
                (fun x y => digits x =? digits y))
      as (x & y & -> & Hx & Hy); [assumption|unfold Decimal_ok; simpl; lia|].
    f_equal. apply Z.eqb_eq. rewrite Hx, Hy. simpl.
    rewrite !Z.max_l, Z.sub_diag, Z.mul_1_r by lia. exact Hn.
Qed.

Lemma Decimal_simplify_spec_witness :
  Decimal_ok (mkDecimal (-31400) 4)
  /\ Decimal_simplify (mkDecimal (-31400) 4) = Return (mkDecimal (-314) 2)
  /\ Decimal_simplify (mkDecimal 0 3) = Return (mkDecimal 0 0)
  /\ exists simple,
      Decimal_simplify (mkDecimal (-31400) 4) = Return simple
      /\ 0 <= scale simple <= scale (mkDecimal (-31400) 4)
      /\ digits (mkDecimal (-31400) 4)
         = digits simple * 10 ^ (scale (mkDecimal (-31400) 4) - scale simple)
      /\ (scale simple = 0 \/ Z.rem (digits simple) 10 <> 0)
      /\ (Decimal_value simple == Decimal_value (mkDecimal (-31400) 4))%Q
      /\ Decimal_simplify simple = Return simple
      /\ Decimal_equalTo (mkDecimal (-31400) 4) simple = Return true.
Proof.
  assert (H : Decimal_ok (mkDecimal (-31400) 4))
    by (unfold Decimal_ok; simpl; lia).
  split; [exact H|]. split; [reflexivity|]. split; [reflexivity|].
  exact (Decimal_simplify_spec _ H).
Defined.

(** X21. [toScale] throws exactly on a negative target.  To a larger scale it
    multiplies the digits by the power of ten, keeping the value, and
    coming back from there gives the original; to a smaller scale it
    divides them, truncating toward zero. *)
Theorem Decimal_toScale_spec (this : Decimal) (t : Z) :
  Decimal_ok this ->
  (throws (Decimal_toScale this (IBigInt t)) <-> t < 0)
  /\ (0 <= t ->
      Decimal_toScale this (IBigInt t)
      = Return (if t - scale this >? 0
                then mkDecimal (digits this * 10 ^ (t - scale this)) t
                else if t - scale this <? 0
                then mkDecimal (Z.quot (digits this) (10 ^ (scale this - t))) t
                else this))
  /\ (scale this <= t ->
      (x <- Decimal_toScale this (IBigInt t) ;;
       Decimal_toScale x (IBigInt (scale this))) = Return this).
Proof.
  unfold Decimal_ok. intros Hok.
  assert (Hup : forall a u, 0 <= scale a -> u - scale a > 0 ->
             Decimal_toScale a (IBigInt u)
             = Return (mkDecimal (digits a * 10 ^ (u - scale a)) u)).
  { intros a u Ha Hu. unfold Decimal_toScale. rewrite Integer_bigint. simpl.
    destruct (Z.gtb_spec (u - scale a) 0); [|lia].
    rewrite bigint_pow_ok by lia. simpl. apply Decimal_new_ok. lia. }
  assert (Hdown : forall a u, u - scale a < 0 ->
             Decimal_toScale a (IBigInt u)
             = Decimal_new (IBigInt (Z.quot (digits a) (10 ^ (scale a - u))))
                           (IBigInt u)).
  { intros a u Hu. unfold Decimal_toScale. rewrite Integer_bigint. simpl.
    destruct (Z.gtb_spec (u - scale a) 0); [lia|].
    destruct (Z.ltb_spec (u - scale a) 0); [|lia].
    rewrite bigint_pow_ok by lia. simpl.
    replace (- (u - scale a)) with (scale a - u) by lia.
    unfold bigint_div. pose proof (pow10_pos (scale a - u) ltac:(lia)).
    destruct (Z.eqb_spec (10 ^ (scale a - u)) 0); [lia|reflexivity]. }
  assert (Hsame : forall a, Decimal_toScale a (IBigInt (scale a)) = Return a).
  { intros a. unfold Decimal_toScale. rewrite Integer_bigint. simpl.
    rewrite Z.sub_diag. reflexivity. }
  split; [|split].
  - unfold throws. split.
    + intros [e He]. destruct (Z_lt_le_dec t 0) as [|Ht]; [assumption|].
      exfalso. destruct (Z.compare_spec (t - scale this) 0) as [E|E|E].
      * replace t with (scale this) in He by lia.
        rewrite Hsame in He. discriminate He.
      * rewrite Hdown, Decimal_new_ok in He by lia. discriminate He.
      * rewrite Hup in He by lia. discriminate He.
    + intros Ht. rewrite Hdown by lia. rewrite Decimal_new_bigint.
      destruct (Z.ltb_spec t 0); [eauto|lia].
  - intros Ht. destruct (Z.gtb_spec (t - scale this) 0) as [Hgt|Hngt].
    + apply Hup; lia.
    + destruct (Z.ltb_spec (t - scale this) 0) as [Hlt|Hnlt].
      * rewrite Hdown by lia. now apply Decimal_new_ok.
      * replace t with (scale this) by lia. apply Hsame.
  - intros Hle. destruct (Z.eq_dec t (scale this)) as [->|Hne].
    + rewrite Hsame. simpl. apply Hsame.
    + rewrite Hup by lia. simpl. rewrite Hdown by (simpl; lia). simpl.
      pose proof (pow10_pos (t - scale this) ltac:(lia)).
      rewrite Z.quot_mul by lia.
      rewrite Decimal_new_ok by assumption. now destruct this.
Qed.

Lemma Decimal_toScale_spec_witness :
  Decimal_ok (mkDecimal (-1999) 3)
  /\ Decimal_toScale (mkDecimal (-1999) 3) (IBigInt 1)
     = Return (mkDecimal (-19) 1)
  /\ Decimal_toScale (mkDecimal (-1999) 3) (IBigInt 5)
     = Return (mkDecimal (-199900) 5)
  /\ (throws (Decimal_toScale (mkDecimal (-1999) 3) (IBigInt (-1)))
      <-> -1 < 0).
Proof.
  assert (H : Decimal_ok (mkDecimal (-1999) 3))
    by (unfold Decimal_ok; simpl; lia).
  split; [exact H|]. split; [reflexivity|]. split; [reflexivity|].
  exact (proj1 (Decimal_toScale_spec (mkDecimal (-1999) 3) (-1) H)).
Defined.

(** X22. [inverse] of a Decimal is the [inverse] of its Rational: it throws on
    zero digits and nowhere else, and otherwise returns the reciprocal of
    the value, as a Rational. *)
Theorem Decimal_inverse_spec (this : Decimal) :
  Decimal_ok this ->
  match Decimal_inverse this with
  | Return reciprocal =>
      digits this <> 0 /\ Rational_ok reciprocal
      /\ (Rational_value reciprocal == / Decimal_value this)%Q
  | Throw e =>
      digits this = 0
      /\ e = RangeError
               "Rational denominator must be greater than zero, received 0."
               (Some ("denominator", IBigInt 0))
  | OutOfFuel => False
  end.
Proof.
  intros Hok. unfold Decimal_inverse.
  rewrite Decimal_toRational_ok by assumption. simpl.
  unfold Decimal_ok in Hok. pose proof (pow10_pos _ Hok) as Hp.
  unfold Rational_inverse. simpl.
  destruct (Z.geb_spec (digits this) 0) as [Hge|Hlt].
  - destruct (Z.eq_dec (digits this) 0) as [->|Hnz];
      [rewrite Rational_new_bigint; now split|].
    rewrite Rational_new_ok by lia.
    repeat split; try assumption; try (unfold Rational_ok; simpl; lia).
    unfold Rational_value, Decimal_value. simpl. field.
    split; apply inject_Z_nonzero; lia.
  - rewrite Rational_new_ok by lia.
    repeat split; try lia; try (unfold Rational_ok; simpl; lia).
    unfold Rational_value, Decimal_value. simpl.
    rewrite !inject_Z_opp. field.
    split; apply inject_Z_nonzero; lia.
Qed.

Lemma Decimal_inverse_spec_witness :
  Decimal_ok (mkDecimal (-25) 2)
  /\ Decimal_inverse (mkDecimal (-25) 2) = Return (mkRational (-100) 25)
  /\ match Decimal_inverse (mkDecimal (-25) 2) with
     | Return reciprocal =>
         digits (mkDecimal (-25) 2) <> 0 /\ Rational_ok reciprocal
         /\ (Rational_value reciprocal
             == / Decimal_value (mkDecimal (-25) 2))%Q
     | Throw e =>
         digits (mkDecimal (-25) 2) = 0
         /\ e = RangeError
                  "Rational denominator must be greater than zero, received 0."
                  (Some ("denominator", IBigInt 0))
     | OutOfFuel => False
     end.
Proof.
  assert (H : Decimal_ok (mkDecimal (-25) 2))
    by (unfold Decimal_ok; simpl; lia).
  split; [exact H|]. split; [reflexivity|].
  exact (Decimal_inverse_spec _ H).
Defined.

(** X23. [max] and [min] of Decimals return one of the two arguments, the one
    with the larger, respectively the smaller, value; on equal values both
    return the argument, not the receiver, whatever the scales. *)
Theorem Decimal_max_min (this that : Decimal) :
  Decimal_ok this -> Decimal_ok that ->
  exists greater less,
    Decimal_max this that = Return greater
    /\ Decimal_min this that = Return less
    /\ (greater = this \/ greater = that) /\ (less = this \/ less = that)
    /\ (Decimal_value this <= Decimal_value greater)%Q
    /\ (Decimal_value that <= Decimal_value greater)%Q
    /\ (Decimal_value less <= Decimal_value this)%Q
    /\ (Decimal_value less <= Decimal_value that)%Q
    /\ ((Decimal_value this == Decimal_value that)%Q ->
        greater = that /\ less = that).
Proof.
  intros H1 H2. pose proof H1 as H1'. pose proof H2 as H2'.
  unfold Decimal_ok in H1', H2'.
  unfold Decimal_max, Decimal_min, Decimal_greaterThan, Decimal_lessThan.
  destruct (Decimal_compare_aligned this that
              (fun x y => digits x >? digits y) H1 H2)
    as (x & y & -> & Hx & Hy).
  destruct (Decimal_compare_aligned this that
              (fun x y => digits x <? digits y) H1 H2)
    as (x' & y' & -> & Hx' & Hy').
  simpl. rewrite Hx, Hy, Hx', Hy'. clear x y x' y' Hx Hy Hx' Hy'.
  set (m := Z.max (scale this) (scale that)).
  set (a := digits this * 10 ^ (m - scale this)).
  set (b := digits that * 10 ^ (m - scale that)).
  assert (Ha : (Decimal_value this == a # Z.to_pos (10 ^ m))%Q)
    by (apply Decimal_value_common; lia).
  assert (Hb : (Decimal_value that == b # Z.to_pos (10 ^ m))%Q)
    by (apply Decimal_value_common; lia).
  assert (Hle : forall p q, p <= q ->
             (p # Z.to_pos (10 ^ m) <= q # Z.to_pos (10 ^ m))%Q)
    by (intros p q Hpq; unfold Qle; simpl;
        apply Z.mul_le_mono_nonneg_r; lia).
  assert (Heq : (Decimal_value this == Decimal_value that)%Q -> a = b).
  { rewrite Ha, Hb. unfold Qeq. simpl. intros E.
    apply Z.mul_cancel_r in E; lia. }
  do 2 eexists. split; [reflexivity|]. split; [reflexivity|].
  rewrite Z.gtb_ltb.
  destruct (Z.ltb_spec b a); destruct (Z.ltb_spec a b);
    repeat split; auto; try apply Qle_refl;
      try (rewrite Ha, Hb; apply Hle; lia);
      try (rewrite Hb, Ha; apply Hle; lia);
      try (match goal with
           | E : (_ == _)%Q |- _ => apply Heq in E; lia
           end).
Qed.

Lemma Decimal_max_min_witness :
  Decimal_ok (mkDecimal 5 1) /\ Decimal_ok (mkDecimal 50 2)
  /\ Decimal_max (mkDecimal 5 1) (mkDecimal 50 2) = Return (mkDecimal 50 2)
  /\ Decimal_min (mkDecimal 5 1) (mkDecimal 49 2) = Return (mkDecimal 49 2)
  /\ exists greater less,
      Decimal_max (mkDecimal 5 1) (mkDecimal 50 2) = Return greater
      /\ Decimal_min (mkDecimal 5 1) (mkDecimal 50 2) = Return less
      /\ (greater = mkDecimal 5 1 \/ greater = mkDecimal 50 2)
      /\ (less = mkDecimal 5 1 \/ less = mkDecimal 50 2)
      /\ (Decimal_value (mkDecimal 5 1) <= Decimal_value greater)%Q
      /\ (Decimal_value (mkDecimal 50 2) <= Decimal_value greater)%Q
      /\ (Decimal_value less <= Decimal_value (mkDecimal 5 1))%Q
      /\ (Decimal_value less <= Decimal_value (mkDecimal 50 2))%Q
      /\ ((Decimal_value (mkDecimal 5 1)
           == Decimal_value (mkDecimal 50 2))%Q ->
          greater = mkDecimal 50 2 /\ less = mkDecimal 50 2).
Proof.
  assert (H1 : Decimal_ok (mkDecimal 5 1)) by (unfold Decimal_ok; simpl; lia).
  assert (H2 : Decimal_ok (mkDecimal 50 2)) by (unfold Decimal_ok; simpl; lia).
  split; [exact H1|]. split; [exact H2|].
  split; [reflexivity|]. split; [reflexivity|].
  exact (Decimal_max_min _ _ H1 H2).
Defined.

Lemma sign_cases n :
  (n < 0 /\ sign n = -1 /\ abs n = - n)
  \/ (n = 0 /\ sign n = 0 /\ abs n = 0)
  \/ (0 < n /\ sign n = 1 /\ abs n = n).
Proof.
  unfold sign, abs. rewrite Z.gtb_ltb, Z.geb_leb.
  destruct (Z.ltb_spec 0 n); destruct (Z.ltb_spec n 0);
    destruct (Z.leb_spec 0 n); lia.
Qed.

(** X24. On a Rational, [sign] is the sign of the value; [negation] returns its
    opposite and [abs] its absolute value, over the same denominator; and
    the value is [sign] times the value of [abs]. *)
Theorem Rational_sign_abs_negation (this : Rational) :
  Rational_ok this ->
  exists opposite magnitude,
    Rational_negation this = Return opposite
    /\ Rational_abs this = Return magnitude
    /\ denominator opposite = denominator this
    /\ denominator magnitude = denominator this
    /\ (Rational_value opposite == - Rational_value this)%Q
    /\ (0 <= Rational_value magnitude)%Q
    /\ (Rational_value this
        == inject_Z (Rational_sign this) * Rational_value magnitude)%Q
    /\ Rational_sign this
       = match (Rational_value this ?= 0)%Q with
         | Lt => -1
         | Eq => 0
         | Gt => 1
         end
    /\ Rational_negation opposite = Return this.
Proof.
  destruct this as [n d]. unfold Rational_ok. simpl. intros Hd.
  unfold Rational_negation, Rational_abs, Rational_sign. simpl.
  rewrite !Rational_new_ok by assumption.
  do 2 eexists. split; [reflexivity|]. split; [reflexivity|]. simpl.
  rewrite Rational_new_ok, Z.opp_involutive by assumption.
  assert (Hcmp : (Rational_value (mkRational n d) ?= 0)%Q = (n ?= 0)).
  { rewrite (Rational_value_Qmake n d Hd).
    unfold Qcompare. simpl. now rewrite Z.mul_1_r. }
  rewrite Hcmp.
  assert (Habs : (0 <= Rational_value (mkRational (abs n) d))%Q).
  { rewrite Rational_value_Qmake by assumption. unfold Qle. simpl.
    destruct (sign_cases n) as [(? & _ & ->)|[(? & _ & ->)|(? & _ & ->)]];
      lia. }
  repeat split; try assumption.
  - unfold Rational_value. simpl. rewrite inject_Z_opp. field.
    apply inject_Z_nonzero. lia.
  - unfold Rational_value. simpl.
    destruct (sign_cases n) as [(? & -> & ->)|[(? & -> & ->)|(? & -> & ->)]];
      rewrite ?inject_Z_opp; subst; simpl; field; apply inject_Z_nonzero; lia.
  - destruct (sign_cases n) as [(? & -> & _)|[(? & -> & _)|(? & -> & _)]];
      destruct (Z.compare_spec n 0); lia.
Qed.

Lemma Rational_sign_abs_negation_witness :
  Rational_ok (mkRational (-3) 4)
  /\ Rational_abs (mkRational (-3) 4) = Return (mkRational 3 4)
  /\ Rational_sign (mkRational (-3) 4) = -1
  /\ exists opposite magnitude,
      Rational_negation (mkRational (-3) 4) = Return opposite
      /\ Rational_abs (mkRational (-3) 4) = Return magnitude
      /\ denominator opposite = 4
      /\ denominator magnitude = 4
      /\ (Rational_value opposite == - Rational_value (mkRational (-3) 4))%Q
      /\ (0 <= Rational_value magnitude)%Q
      /\ (Rational_value (mkRational (-3) 4)
          == inject_Z (Rational_sign (mkRational (-3) 4))
             * Rational_value magnitude)%Q
      /\ Rational_sign (mkRational (-3) 4)
         = match (Rational_value (mkRational (-3) 4) ?= 0)%Q with
           | Lt => -1
           | Eq => 0
           | Gt => 1
           end
      /\ Rational_negation opposite = Return (mkRational (-3) 4).
Proof.
  assert (H : Rational_ok (mkRational (-3) 4))
    by (unfold Rational_ok; simpl; lia).
  split; [exact H|]. split; [reflexivity|]. split; [reflexivity|].
  exact (Rational_sign_abs_negation _ H).
Defined.

(** X25. On a Decimal, [sign] is the sign of the value; [negation] returns its
    opposite and [abs] its absolute value, at the same scale; and the
    value is [sign] times the value of [abs]. *)
Theorem Decimal_sign_abs_negation (this : Decimal) :
  Decimal_ok this ->
  exists opposite magnitude,
    Decimal_negation this = Return opposite
    /\ Decimal_abs this = Return magnitude
    /\ scale opposite = scale this
    /\ scale magnitude = scale this
    /\ (Decimal_value opposite == - Decimal_value this)%Q
    /\ (0 <= Decimal_value magnitude)%Q
    /\ (Decimal_value this
        == inject_Z (Decimal_sign this) * Decimal_value magnitude)%Q
    /\ Decimal_sign this
       = match (Decimal_value this ?= 0)%Q with
         | Lt => -1
         | Eq => 0
         | Gt => 1
         end
    /\ Decimal_negation opposite = Return this.
Proof.
  destruct this as [n s]. unfold Decimal_ok. simpl. intros Hs.
  unfold Decimal_negation, Decimal_abs, Decimal_sign. simpl.
  rewrite !Decimal_new_ok by assumption.
  do 2 eexists. split; [reflexivity|]. split; [reflexivity|]. simpl.
  rewrite Decimal_new_ok, Z.opp_involutive by assumption.
  pose proof (pow10_pos s Hs) as Hp.
  assert (Hq : forall k, (Decimal_value (mkDecimal k s)
                          == k # Z.to_pos (10 ^ s))%Q)
    by (intros k; now apply (Rational_value_Qmake k (10 ^ s))).
  assert (Hcmp : (Decimal_value (mkDecimal n s) ?= 0)%Q = (n ?= 0)).
  { rewrite (Hq n). unfold Qcompare. simpl. now rewrite Z.mul_1_r. }
  rewrite Hcmp.
  assert (Habs : (0 <= Decimal_value (mkDecimal (abs n) s))%Q).
  { rewrite Hq. unfold Qle. simpl.
    destruct (sign_cases n) as [(? & _ & ->)|[(? & _ & ->)|(? & _ & ->)]];
      lia. }
  repeat split; try assumption.
  - rewrite !Decimal_value_mk, inject_Z_opp. field.
    apply inject_Z_nonzero. lia.
  - rewrite !Decimal_value_mk.
    destruct (sign_cases n) as [(? & -> & ->)|[(? & -> & ->)|(? & -> & ->)]];
      rewrite ?inject_Z_opp; subst; simpl; field; apply inject_Z_nonzero; lia.
  - destruct (sign_cases n) as [(? & -> & _)|[(? & -> & _)|(? & -> & _)]];
      destruct (Z.compare_spec n 0); lia.
Qed.

Lemma Decimal_sign_abs_negation_witness :
  Decimal_ok (mkDecimal (-75) 2)
  /\ Decimal_abs (mkDecimal (-75) 2) = Return (mkDecimal 75 2)
  /\ Decimal_sign (mkDecimal (-75) 2) = -1
  /\ exists opposite magnitude,
      Decimal_negation (mkDecimal (-75) 2) = Return opposite
      /\ Decimal_abs (mkDecimal (-75) 2) = Return magnitude
      /\ scale opposite = 2
      /\ scale magnitude = 2
      /\ (Decimal_value opposite == - Decimal_value (mkDecimal (-75) 2))%Q
      /\ (0 <= Decimal_value magnitude)%Q
      /\ (Decimal_value (mkDecimal (-75) 2)
          == inject_Z (Decimal_sign (mkDecimal (-75) 2))
             * Decimal_value magnitude)%Q
      /\ Decimal_sign (mkDecimal (-75) 2)
         = match (Decimal_value (mkDecimal (-75) 2) ?= 0)%Q with
           | Lt => -1
           | Eq => 0
           | Gt => 1
           end
      /\ Decimal_negation opposite = Return (mkDecimal (-75) 2).
Proof.
  assert (H : Decimal_ok (mkDecimal (-75) 2))
    by (unfold Decimal_ok; simpl; lia).
  split; [exact H|]. split; [reflexivity|]. split; [reflexivity|].
  exact (Decimal_sign_abs_negation _ H).
Defined.

Lemma Rational_dividedBy_for_value those : forall n d,
  0 < d -> Forall Rational_ok those -> Forall nonZero those ->
  exists n' d',
    Rational_dividedBy_for n d those = Return (n', d') /\ 0 < d'
    /\ (Rational_value (mkRational n' d') * Rational_product those
        == Rational_value (mkRational n d))%Q.
Proof.
  induction those as [|that rest IH]; intros n d Hd Hok Hnz.
  - exists n, d. repeat split; try assumption.
    simpl. now rewrite Qmult_1_r.
  - inversion Hok as [|? ? Hthat Hrest]; subst.
    inversion Hnz as [|? ? Hnzthat Hnzrest]; subst.
    unfold Rational_ok in Hthat. unfold nonZero in Hnzthat.
    cbn [Rational_dividedBy_for].
    destruct (Z.gtb_spec (numerator that) 0) as [Hpos|Hle];
      [|destruct (Z.ltb_spec (numerator that) 0) as [Hneg|Hge]; [|lia]].
    + destruct (IH (n * denominator that) (d * numerator that) ltac:(nia)
                  Hrest Hnzrest) as (n' & d' & -> & Hd' & Hval).
      exists n', d'. repeat split; try assumption.
      change (Rational_product (that :: rest))
        with (Rational_value that * Rational_product rest)%Q.
      setoid_replace (Rational_value (mkRational n' d')
                      * (Rational_value that * Rational_product rest))%Q
        with (Rational_value that
              * (Rational_value (mkRational n' d')
                 * Rational_product rest))%Q by ring.
      rewrite Hval.
      unfold Rational_value. simpl. rewrite !inject_Z_mult. field.
      repeat split; apply inject_Z_nonzero; lia.
    + destruct (IH (n * - denominator that) (d * - numerator that)
                  ltac:(nia) Hrest Hnzrest) as (n' & d' & -> & Hd' & Hval).
      exists n', d'. repeat split; try assumption.
      change (Rational_product (that :: rest))
        with (Rational_value that * Rational_product rest)%Q.
      setoid_replace (Rational_value (mkRational n' d')
                      * (Rational_value that * Rational_product rest))%Q
        with (Rational_value that
              * (Rational_value (mkRational n' d')
                 * Rational_product rest))%Q by ring.
      rewrite Hval.
      unfold Rational_value. simpl.
      rewrite !inject_Z_mult, !inject_Z_opp. field.
      repeat split; apply inject_Z_nonzero; lia.
Qed.

(** X26. [dividedBy] on Rationals is exact: with no zero divisor, it returns the fraction
    which, multiplied by the divisors, gives the dividend back. *)
Theorem Rational_dividedBy_exact (this : Rational) (those : list Rational) :
  Rational_ok this -> Forall Rational_ok those -> Forall nonZero those ->
  exists quotient,
    Rational_dividedBy this those = Return quotient /\ Rational_ok quotient
    /\ (Rational_value quotient * Rational_product those
        == Rational_value this)%Q.
Proof.
  intros Hthis Hthose Hnz.
  destruct (Rational_dividedBy_for_value those (numerator this)
              (denominator this) Hthis Hthose Hnz)
    as (n' & d' & E & Hd' & Hval).
  exists (mkRational n' d'). unfold Rational_dividedBy. rewrite E. simpl.
  rewrite Rational_new_ok by assumption.
  repeat split; assumption.
Qed.

Lemma Rational_dividedBy_exact_witness :
  Rational_ok (mkRational 1 2)
  /\ Forall Rational_ok [mkRational (-3) 4; mkRational 5 1]
  /\ Forall nonZero [mkRational (-3) 4; mkRational 5 1]
  /\ Rational_dividedBy (mkRational 1 2) [mkRational (-3) 4; mkRational 5 1]
     = Return (mkRational (-4) 30)
  /\ exists quotient,
      Rational_dividedBy (mkRational 1 2) [mkRational (-3) 4; mkRational 5 1]
      = Return quotient /\ Rational_ok quotient
      /\ (Rational_value quotient
          * Rational_product [mkRational (-3) 4; mkRational 5 1]
          == Rational_value (mkRational 1 2))%Q.
Proof.
  assert (H : Rational_ok (mkRational 1 2)) by (unfold Rational_ok; simpl; lia).
  assert (Hs : Forall Rational_ok [mkRational (-3) 4; mkRational 5 1])
    by (repeat constructor; unfold Rational_ok; simpl; lia).
  assert (Hn : Forall nonZero [mkRational (-3) 4; mkRational 5 1])
    by (repeat constructor; unfold nonZero; simpl; lia).
  split; [exact H|]. split; [exact Hs|]. split; [exact Hn|].
  split; [reflexivity|].
  exact (Rational_dividedBy_exact _ _ H Hs Hn).
Defined.

Lemma map_toRational_ok those :
  Forall Decimal_ok those ->
  map_toRational those
  = Return (map (fun that => mkRational (digits that) (10 ^ scale that))
              those).
Proof.
  induction 1 as [|that rest Hthat Hrest IH]; [reflexivity|].
  cbn [map_toRational]. rewrite Decimal_toRational_ok by assumption.
  cbn [bind]. rewrite IH. reflexivity.
Qed.

(** X27. [dividedBy] on Decimals, with any number of divisors: it throws when
    and only when some divisor has digits zero, the error being that of the
    Rational division; otherwise it returns a Rational which, multiplied by
    the values of the divisors, gives the value of the dividend back. *)
Theorem Decimal_dividedBy_list (this : Decimal) (those : list Decimal) :
  Decimal_ok this -> Forall Decimal_ok those ->
  (throws (Decimal_dividedBy this those)
   <-> Exists (fun that => digits that = 0) those)
  /\ match Decimal_dividedBy this those with
     | Return quotient =>
         Rational_ok quotient
         /\ (Rational_value quotient * Decimal_product those
             == Decimal_value this)%Q
     | Throw e =>
         exists dividend zero,
           In zero those /\ digits zero = 0
           /\ e = divideByZero dividend
                    (mkRational (digits zero) (10 ^ scale zero))
     | OutOfFuel => False
     end.
Proof.
  intros Hthis Hthose. unfold Decimal_dividedBy, throws.
  rewrite Decimal_toRational_ok, map_toRational_ok by assumption.
  cbn [bind].
  set (rs := map (fun that => mkRational (digits that) (10 ^ scale that))
               those).
  assert (Hrs : Forall Rational_ok rs).
  { apply Forall_map. eapply Forall_impl; [|exact Hthose].
    intros a Ha. unfold Rational_ok. simpl. now apply pow10_pos. }
  assert (Hprod : Rational_product rs = Decimal_product those).
  { unfold rs. clear. induction those as [|a l IH]; [reflexivity|].
    simpl. now rewrite IH. }
  pose proof (pow10_pos _ Hthis) as Hp.
  pose proof (Rational_dividedBy_for_spec rs (digits this)
                (10 ^ scale this) Hp Hrs) as Hspec.
  unfold Rational_dividedBy. cbn [numerator denominator].
  destruct (Rational_dividedBy_for (digits this) (10 ^ scale this) rs)
    as [[n' d']|e|] eqn:E; cbn [bind fst snd]; [| |contradiction].
  - destruct Hspec as [Hd' Hnz]. rewrite Rational_new_ok by assumption.
    split; [split|split].
    + intros [e He]. discriminate He.
    + intros Hex. apply Exists_exists in Hex as (that & Hin & Hz).
      pose proof (proj1 (Forall_forall _ _) Hnz) as Hall.
      assert (Hin' : In (mkRational (digits that) (10 ^ scale that)) rs)
        by (unfold rs;
            exact (in_map (fun a => mkRational (digits a) (10 ^ scale a))
                     those that Hin)).
      apply Hall in Hin'. exfalso. now apply Hin'.
    + exact Hd'.
    + destruct (Rational_dividedBy_for_value rs (digits this)
                  (10 ^ scale this) Hp Hrs Hnz) as (n & d & E' & _ & Hval).
      rewrite E in E'. injection E' as <- <-.
      rewrite <- Hprod. exact Hval.
  - destruct Hspec
      as (before & zero & after & n' & d' & Hsplit & _ & Hz & _ & _ & ->).
    assert (Hin : In zero rs) by (rewrite Hsplit; apply in_elt).
    unfold rs in Hin. apply in_map_iff in Hin as (z & <- & Hz').
    simpl in Hz.
    split; [split|].
    + intros _. apply Exists_exists. eauto.
    + eauto.
    + exists (mkRational n' d'), z. repeat split; assumption.
Qed.

Lemma Decimal_dividedBy_list_witness :
  Decimal_ok (mkDecimal 15 1)
  /\ Forall Decimal_ok [mkDecimal 3 0; mkDecimal 0 2; mkDecimal 7 1]
  /\ Decimal_dividedBy (mkDecimal 15 1)
       [mkDecimal 3 0; mkDecimal 0 2; mkDecimal 7 1]
     = Throw (RangeError
                "Rational cannot divide by zero, received 15/30 and 0/100."
                None)
  /\ (throws (Decimal_dividedBy (mkDecimal 15 1)
                [mkDecimal 3 0; mkDecimal 0 2; mkDecimal 7 1])
      <-> Exists (fun that => digits that = 0)
            [mkDecimal 3 0; mkDecimal 0 2; mkDecimal 7 1]).
Proof.
  assert (H : Decimal_ok (mkDecimal 15 1)) by (unfold Decimal_ok; simpl; lia).
  assert (Hs : Forall Decimal_ok [mkDecimal 3 0; mkDecimal 0 2; mkDecimal 7 1])
    by (repeat constructor; unfold Decimal_ok; simpl; lia).
  split; [exact H|]. split; [exact Hs|]. split; [reflexivity|].
  exact (proj1 (Decimal_dividedBy_list _ _ H Hs)).
Defined.

(** ** rational.js: the long division of [toDecimal] *)

(** One more digit of the quotient: the step of the long division, on the
    dividend scaled by ten. *)
Lemma long_division_step a d :
  0 < d ->
  Z.quot (a * 10) d = Z.quot a d * 10 + Z.quot (Z.rem a d * 10) d
  /\ Z.rem (a * 10) d = Z.rem (Z.rem a d * 10) d.
Proof.
  intros Hd.
  assert (Hpos : forall b, 0 <= b ->
            Z.quot (b * 10) d = Z.quot b d * 10 + Z.quot (Z.rem b d * 10) d
            /\ Z.rem (b * 10) d = Z.rem (Z.rem b d * 10) d).
  { intros b Hb.
    pose proof (Z.rem_bound_pos b d Hb Hd) as Hr.
    pose proof (Z.quot_rem' b d) as E.
    assert (Hq : 0 <= Z.quot b d) by (apply Z.quot_pos; lia).
    revert Hr E Hq. generalize (Z.quot b d), (Z.rem b d). intros q r Hr E Hq.
    rewrite !Z.quot_div_nonneg, !Z.rem_mod_nonneg by lia.
    replace (b * 10) with (r * 10 + q * 10 * d) by lia.
    rewrite Z.div_add, Z.mod_add by lia. split; [ring|reflexivity]. }
  destruct (Z_le_gt_dec 0 a) as [Ha|Ha]; [now apply Hpos|].
  destruct (Hpos (- a) ltac:(lia)) as [Hq Hr].
  rewrite !Z.mul_opp_l, !Z.quot_opp_l, Z.rem_opp_l, !Z.mul_opp_l,
    Z.quot_opp_l in Hq by lia.
  rewrite !Z.mul_opp_l, !Z.rem_opp_l, !Z.mul_opp_l, Z.rem_opp_l in Hr by lia.
  split; lia.
Qed.

Section Expansion.

Variables n d : Z.
Hypothesis d_pos : 0 < d.

(** The state of the loop after [j] passes. *)
Lemma expansion_next j :
  0 <= j ->
  Z.quot (n * 10 ^ (j + 1)) d
  = Z.quot (n * 10 ^ j) d * 10 + Z.quot (Z.rem (n * 10 ^ j) d * 10) d
  /\ Z.rem (n * 10 ^ (j + 1)) d = Z.rem (Z.rem (n * 10 ^ j) d * 10) d.
Proof.
  intros Hj. rewrite Z.pow_add_r, Z.pow_1_r, Z.mul_assoc by lia.
  now apply long_division_step.
Qed.

(** With a limit and a remainder that never vanishes before it, the loop
    makes [limit] passes and ends on the truncated quotient. *)
Lemma while_truncates fuel : forall limit j,
  0 <= j <= limit -> limit - j <= Z.of_nat fuel ->
  (forall i, j <= i < limit -> Z.rem (n * 10 ^ i) d <> 0) ->
  Rational_toDecimal_while fuel d (Some limit)
    (Z.quot (n * 10 ^ j) d) (Z.rem (n * 10 ^ j) d) j
  = Return (Z.quot (n * 10 ^ limit) d).
Proof.
  induction fuel as [|fuel IH]; intros limit j Hj Hfuel Hrem.
  - assert (j = limit) as -> by lia. simpl.
    rewrite Z.ltb_irrefl, andb_false_r. reflexivity.
  - rewrite while_step by assumption.
    destruct (Z.ltb_spec j limit) as [Hlt|Hge].
    + destruct (Z.eqb_spec (Z.rem (n * 10 ^ j) d) 0) as [E|_];
        [now apply Hrem in E; [|lia]|].
      cbn [negb andb].
      destruct (expansion_next j ltac:(lia)) as [<- <-].
      apply IH; [lia|lia|]. intros i Hi. apply Hrem. lia.
    + rewrite andb_false_r. assert (j = limit) as -> by lia. reflexivity.
Qed.

(** Without a limit, the loop stops at the first power of ten the
    denominator divides into, on the exact quotient. *)
Lemma while_exact fuel : forall j result,
  0 <= j ->
  Rational_toDecimal_while fuel d None
    (Z.quot (n * 10 ^ j) d) (Z.rem (n * 10 ^ j) d) j = Return result ->
  exists k,
    j <= k /\ result * d = n * 10 ^ k
    /\ forall i, j <= i < k -> Z.rem (n * 10 ^ i) d <> 0.
Proof.
  induction fuel as [|fuel IH]; intros j result Hj Hrun.
  - simpl in Hrun.
    destruct (Z.eqb_spec (Z.rem (n * 10 ^ j) d) 0) as [E|_];
      [|discriminate]. injection Hrun as <-.
    exists j. repeat split; [lia| |intros; lia].
    apply Z.quot_exact in E; lia.
  - rewrite while_step in Hrun by assumption.
    destruct (Z.eqb_spec (Z.rem (n * 10 ^ j) d) 0) as [E|Hne].
    + injection Hrun as <-.
      exists j. repeat split; [lia| |intros; lia].
      apply Z.quot_exact in E; lia.
    + cbn [negb andb] in Hrun.
      destruct (expansion_next j Hj) as [Eq Er].
      rewrite <- Eq, <- Er in Hrun.
      destruct (IH (j + 1) result ltac:(lia) Hrun) as (k & Hk & Hres & Hmin).
      exists k. repeat split; [lia|assumption|].
      intros i Hi. destruct (Z.eq_dec i j) as [->|]; [assumption|].
      apply Hmin. lia.
Qed.

End Expansion.

(** X28. When the denominator is not terminating and the fraction is in lowest
    terms, [toDecimal(s)] is the value truncated toward zero at [s] places,
    not rounded: its digits are the truncated quotient of
    [numerator * 10^s] by the denominator. *)
Theorem toDecimal_truncates (r : Rational) (s : Z) (fuel : nat) :
  Rational_ok r -> 0 <= s -> s <= Z.of_nat fuel ->
  Z.gcd (numerator r) (denominator r) = 1 ->
  isTerminating 10 (denominator r) = false ->
  Rational_toDecimal fuel r (Some (IBigInt s))
  = Return (mkDecimal (Z.quot (numerator r * 10 ^ s) (denominator r)) s).
Proof.
  unfold Rational_ok. intros Hd Hs Hfuel Hgcd Hterm.
  unfold Rational_toDecimal. rewrite Hterm, Integer_bigint. cbn [bind].
  unfold bigint_div, bigint_rem.
  destruct (Z.eqb_spec (denominator r) 0); [lia|]. cbn [bind].
  pose proof (while_truncates (numerator r) (denominator r) Hd fuel s 0)
    as Hrun.
  rewrite Z.pow_0_r, Z.mul_1_r in Hrun. rewrite Hrun; try lia.
  - simpl. apply Decimal_new_ok. assumption.
  - intros i Hi E. apply Z.rem_divide in E; [|lia].
    apply Z.gauss in E; [|now rewrite Z.gcd_comm].
    rewrite <- (Z2Nat.id i) in E by lia.
    apply divides_power_terminating in E; [congruence|assumption].
Qed.

Lemma toDecimal_truncates_witness :
  Rational_ok (mkRational (-2) 3) /\ 0 <= 4 /\ 4 <= Z.of_nat 4
  /\ Z.gcd (-2) 3 = 1 /\ isTerminating 10 3 = false
  /\ Rational_toDecimal 4 (mkRational (-2) 3) (Some (IBigInt 4))
     = Return (mkDecimal (-6666) 4).
Proof.
  assert (H : Rational_ok (mkRational (-2) 3))
    by (unfold Rational_ok; simpl; lia).
  split; [exact H|]. split; [lia|]. split; [simpl; lia|].
  split; [reflexivity|]. split; [reflexivity|].
  exact (toDecimal_truncates (mkRational (-2) 3) 4 4 H ltac:(lia)
           ltac:(simpl; lia) eq_refl eq_refl).
Defined.

(** X29. When the denominator is terminating, the digits [toDecimal] returns
    are those of the exact expansion: with [k] the number of its decimal
    places, [digits / 10^k] is the value of the fraction.  They are
    returned under the scale asked for, whatever [k] is. *)
Theorem toDecimal_exact_digits (r : Rational) (s : Z) :
  Rational_ok r -> 0 <= s -> isTerminating 10 (denominator r) = true ->
  exists fuel0 k result,
    0 <= k
    /\ (forall fuel, (fuel0 <= fuel)%nat ->
          Rational_toDecimal fuel r (Some (IBigInt s))
          = Return (mkDecimal result s))
    /\ (inject_Z result / inject_Z (10 ^ k) == Rational_value r)%Q
    /\ (forall i, 0 <= i < k ->
          ~ (denominator r | numerator r * 10 ^ i)).
Proof.
  unfold Rational_ok. intros Hd Hs Hterm.
  destruct (while_unlimited (denominator r) Hd
              (List.length (primeFactors (denominator r)))
              (Z.quot (numerator r) (denominator r))
              (Z.rem (numerator r) (denominator r)) 0)
    as [result Hrun].
  { pose proof (Z.rem_bound_abs (numerator r) (denominator r)). lia. }
  { apply Z.divide_mul_r. now apply isTerminating_10. }
  pose proof Hrun as Hrun'.
  rewrite <- (Z.mul_1_r (numerator r)) in Hrun' at 1 2.
  change 1 with (10 ^ 0) in Hrun'.
  apply while_exact in Hrun' as (k & Hk & Hres & Hmin); [|assumption|lia].
  exists (List.length (primeFactors (denominator r))), k, result.
  split; [assumption|]. split; [|split].
  - intros fuel Hfuel. unfold Rational_toDecimal.
    rewrite Hterm. cbn [bind]. unfold bigint_div, bigint_rem.
    destruct (Z.eqb_spec (denominator r) 0); [lia|]. cbn [bind].
    rewrite (while_more_fuel _ Hd _ fuel _ _ _ _ _ Hfuel Hrun). cbn [bind].
    now apply Decimal_new_ok.
  - unfold Rational_value.
    pose proof (pow10_pos k Hk).
    assert (E : (inject_Z result * inject_Z (denominator r)
                 == inject_Z (numerator r) * inject_Z (10 ^ k))%Q)
      by (rewrite <- !inject_Z_mult; now rewrite Hres).
    apply (Qmult_inj_r _ _ (inject_Z (denominator r) * inject_Z (10 ^ k)));
      [intros F; apply Qmult_integral in F as [F|F];
       revert F; apply inject_Z_nonzero; lia|].
    field_simplify; [|apply inject_Z_nonzero; lia..].
    rewrite E. field.
  - intros i Hi Hdiv. apply (Hmin i); [lia|].
    apply Z.rem_divide; [lia|assumption].
Qed.

Lemma toDecimal_exact_digits_witness :
  Rational_ok (mkRational 3 8) /\ 0 <= 1 /\ isTerminating 10 8 = true
  /\ (forall fuel, (3 <= fuel)%nat ->
        Rational_toDecimal fuel (mkRational 3 8) (Some (IBigInt 1))
        = Return (mkDecimal 375 1))
  /\ exists fuel0 k result,
      0 <= k
      /\ (forall fuel, (fuel0 <= fuel)%nat ->
            Rational_toDecimal fuel (mkRational 3 8) (Some (IBigInt 1))
            = Return (mkDecimal result 1))
      /\ (inject_Z result / inject_Z (10 ^ k)
          == Rational_value (mkRational 3 8))%Q
      /\ (forall i, 0 <= i < k -> ~ (8 | 3 * 10 ^ i)).
Proof.
  assert (H : Rational_ok (mkRational 3 8)) by (unfold Rational_ok; simpl; lia).
  split; [exact H|]. split; [lia|]. split; [reflexivity|].
  split; [intros [|[|[|fuel]]] Hf; try lia; destruct fuel; reflexivity|].
  exact (toDecimal_exact_digits (mkRational 3 8) 1 H ltac:(lia) eq_refl).
Defined.

(** ** decimal.js: reading back what [toString] writes *)

Lemma index_dot_none s : without "." s = true -> index 0 "." s = None.
Proof.
  induction s as [|c s IH]; [reflexivity|].
  cbn [without]. intros H. apply andb_prop in H as [Hc Hs].
  apply negb_true_iff in Hc. cbn [index prefix].
  destruct (ascii_dec "." c) as [<-|_]; [discriminate Hc|].
  now rewrite (IH Hs).
Qed.

Lemma index_dot_some s1 s2 :
  without "." s1 = true ->
  index 0 "." (s1 ++ String "." s2) = Some (String.length s1).
Proof.
  induction s1 as [|c s IH].
  - intros _. cbn [append index prefix String.length].
    destruct (ascii_dec "." "."); [|contradiction].
    now destruct s2.
  - cbn [without]. intros H. apply andb_prop in H as [Hc Hs].
    apply negb_true_iff in Hc. cbn [append index prefix String.length].
    destruct (ascii_dec "." c) as [<-|_]; [discriminate Hc|].
    now rewrite (IH Hs).
Qed.

Lemma removeFirst_none c s : without c s = true -> removeFirst c s = s.
Proof.
  induction s as [|c' s IH]; [reflexivity|].
  cbn [without removeFirst]. intros H. apply andb_prop in H as [Hc Hs].
  apply negb_true_iff in Hc. now rewrite Hc, (IH Hs).
Qed.

Lemma removeFirst_some c s1 s2 :
  without c s1 = true -> removeFirst c (s1 ++ String c s2) = (s1 ++ s2)%string.
Proof.
  induction s1 as [|c' s IH].
  - intros _. cbn [append removeFirst]. now rewrite Ascii.eqb_refl.
  - cbn [without append removeFirst]. intros H.
    apply andb_prop in H as [Hc Hs].
    apply negb_true_iff in Hc. now rewrite Hc, (IH Hs).
Qed.

Lemma length_append s1 s2 :
  String.length (s1 ++ s2) = (String.length s1 + String.length s2)%nat.
Proof. induction s1 as [|c s IH]; simpl; [reflexivity|now rewrite IH]. Qed.

Lemma length_string_of_list l :
  String.length (string_of_list_ascii l) = List.length l.
Proof. induction l as [|c l IH]; simpl; [reflexivity|now rewrite IH]. Qed.

Lemma noWhiteSpace_string_of_list l :
  Forall (fun c => isWhiteSpace c = false) l ->
  noWhiteSpace (string_of_list_ascii l) = true.
Proof.
  induction 1 as [|c l Hc Hl IH]; [reflexivity|].
  simpl. now rewrite Hc, IH.
Qed.

Lemma without_string_of_list c l :
  Forall (fun x => Ascii.eqb x c = false) l ->
  without c (string_of_list_ascii l) = true.
Proof.
  induction 1 as [|x l Hx Hl IH]; [reflexivity|].
  simpl. now rewrite Hx, IH.
Qed.

Lemma isDigit_facts c :
  isDigit c -> isWhiteSpace c = false /\ Ascii.eqb c "." = false.
Proof.
  unfold isDigit. simpl.
  intros [<-|[<-|[<-|[<-|[<-|[<-|[<-|[<-|[<-|[<-|[]]]]]]]]]]]; now split.
Qed.

Lemma isDigit_uint u :
  Forall isDigit (list_ascii_of_string (NilEmpty.string_of_uint u)).
Proof.
  induction u; simpl; constructor; try assumption; unfold isDigit; simpl;
    tauto.
Qed.

Lemma isDigit_zeros k : Forall isDigit (repeat "0"%char k).
Proof.
  apply Forall_forall. intros c Hc. apply repeat_spec in Hc as ->.
  unfold isDigit. simpl. tauto.
Qed.

Lemma leadingZeros_string k u :
  string_of_list_ascii
    (repeat "0"%char k ++ list_ascii_of_string (NilEmpty.string_of_uint u))
  = NilEmpty.string_of_uint (leadingZeros k u).
Proof.
  induction k as [|k IH]; simpl.
  - apply string_of_list_ascii_of_string.
  - now rewrite IH.
Qed.

Lemma leadingZeros_value k u : Z.of_uint (leadingZeros k u) = Z.of_uint u.
Proof. induction k as [|k IH]; [reflexivity|exact IH]. Qed.

Lemma leadingZeros_not_Nil k u :
  u <> Decimal.Nil -> leadingZeros k u <> Decimal.Nil.
Proof. destruct k; [trivial|discriminate]. Qed.

(** [Integer] on a decimal numeral with leading zeros, and on one behind a
    minus sign. *)
Lemma Integer_uint u :
  u <> Decimal.Nil ->
  Integer (IString (NilEmpty.string_of_uint u)) = Return (Z.of_uint u)
  /\ Integer (IString (String "-" (NilEmpty.string_of_uint u)))
     = Return (- Z.of_uint u).
Proof.
  intros Hu. split; apply Integer_literal; cbn [String_of].
  - destruct u; [contradiction|discriminate..].
  - apply trim_noWhiteSpace, noWhiteSpace_uint.
  - now apply StrIntegerLiteral_uint.
  - discriminate.
  - apply trim_noWhiteSpace. cbn [noWhiteSpace].
    now rewrite noWhiteSpace_uint.
  - cbn [StrIntegerLiteral]. unfold decimalDigits.
    rewrite NilEmpty.usu.
    destruct u; [contradiction|reflexivity..].
Qed.

Lemma Integer_signed negative k u :
  u <> Decimal.Nil ->
  Integer (IString (string_of_list_ascii
    (signText negative ++ repeat "0"%char k
       ++ list_ascii_of_string (NilEmpty.string_of_uint u))))
  = Return (signed negative (Z.of_uint u)).
Proof.
  intros Hu. rewrite string_of_list_ascii_app, leadingZeros_string.
  pose proof (Integer_uint (leadingZeros k u) (leadingZeros_not_Nil k u Hu))
    as [Hplus Hminus].
  rewrite leadingZeros_value in Hplus, Hminus.
  destruct negative; [exact Hminus|exact Hplus].
Qed.

Lemma signText_facts negative :
  Forall (fun c => isWhiteSpace c = false /\ Ascii.eqb c "." = false)
    (signText negative).
Proof. destruct negative; repeat constructor. Qed.

Lemma digits_facts l :
  Forall isDigit l ->
  Forall (fun c => isWhiteSpace c = false /\ Ascii.eqb c "." = false) l.
Proof. apply Forall_impl. exact isDigit_facts. Qed.

Lemma padded_isDigit k u :
  Forall isDigit
    (repeat "0"%char k ++ list_ascii_of_string (NilEmpty.string_of_uint u)).
Proof. apply Forall_app. split; [apply isDigit_zeros|apply isDigit_uint]. Qed.

(** A numeral without a point is read at scale zero. *)
Lemma fromString_plain negative k u :
  u <> Decimal.Nil ->
  Decimal_fromString (string_of_list_ascii
    (signText negative ++ repeat "0"%char k
       ++ list_ascii_of_string (NilEmpty.string_of_uint u)))
  = Return (mkDecimal (signed negative (Z.of_uint u)) 0).
Proof.
  intros Hu.
  assert (HF : Forall (fun c => isWhiteSpace c = false
                                /\ Ascii.eqb c "." = false)
                 (signText negative ++ repeat "0"%char k
                    ++ list_ascii_of_string (NilEmpty.string_of_uint u))).
  { apply Forall_app. split; [apply signText_facts|].
    apply digits_facts, padded_isDigit. }
  unfold Decimal_fromString.
  rewrite trim_noWhiteSpace
    by (apply noWhiteSpace_string_of_list; revert HF; apply Forall_impl; tauto).
  assert (Hw : without "." (string_of_list_ascii
                 (signText negative ++ repeat "0"%char k
                    ++ list_ascii_of_string (NilEmpty.string_of_uint u)))
               = true)
    by (apply without_string_of_list; revert HF; apply Forall_impl; tauto).
  rewrite (index_dot_none _ Hw), (removeFirst_none _ _ Hw).
  cbn [bind]. rewrite (Integer_signed negative k u Hu). cbn [bind].
  now apply Decimal_new_ok.
Qed.

(** A numeral with a point is read at the scale that counts the digits
    behind the point. *)
Lemma fromString_pointed negative k u whole fraction :
  u <> Decimal.Nil ->
  whole ++ fraction
  = repeat "0"%char k ++ list_ascii_of_string (NilEmpty.string_of_uint u) ->
  Decimal_fromString (string_of_list_ascii
    (signText negative ++ whole ++ "."%char :: fraction))
  = Return (mkDecimal (signed negative (Z.of_uint u))
              (Z.of_nat (List.length fraction))).
Proof.
  intros Hu Hsplit.
  assert (HD : Forall isDigit (whole ++ fraction))
    by (rewrite Hsplit; apply padded_isDigit).
  apply Forall_app in HD as [HDw HDf].
  apply digits_facts in HDw, HDf.
  pose proof (signText_facts negative) as HS.
  assert (HW : Forall (fun c => isWhiteSpace c = false
                                /\ Ascii.eqb c "." = false)
                 (signText negative ++ whole))
    by (apply Forall_app; now split).
  unfold Decimal_fromString.
  rewrite trim_noWhiteSpace.
  2:{ apply noWhiteSpace_string_of_list.
      rewrite app_assoc. apply Forall_app. split.
      - revert HW. apply Forall_impl. tauto.
      - constructor; [reflexivity|]. revert HDf. apply Forall_impl. tauto. }
  rewrite app_assoc, string_of_list_ascii_app.
  cbn [string_of_list_ascii].
  assert (Hw : without "." (string_of_list_ascii (signText negative ++ whole))
               = true)
    by (apply without_string_of_list; revert HW; apply Forall_impl; tauto).
  rewrite (index_dot_some _ _ Hw), (removeFirst_some _ _ _ Hw).
  rewrite length_append. cbn [String.length].
  rewrite !length_string_of_list.
  rewrite Integer_bigint. cbn [bind].
  rewrite <- string_of_list_ascii_app, <- app_assoc, Hsplit.
  rewrite (Integer_signed negative k u Hu). cbn [bind].
  rewrite Decimal_new_ok by lia. do 2 f_equal. lia.
Qed.

(** The text of a bigint: a sign and a decimal numeral. *)
Lemma bigint_text z :
  exists u,
    u <> Decimal.Nil /\ Z.of_uint u = Z.abs z
    /\ list_ascii_of_string (String_of_bigint z)
       = signText (z <? 0)
           ++ list_ascii_of_string (NilEmpty.string_of_uint u).
Proof.
  unfold String_of_bigint.
  destruct z as [|p|p].
  - exists (Decimal.D0 Decimal.Nil). now repeat split.
  - exists (Pos.to_uint p). pose proof (uint_of_pos_not_Nil p) as Hn.
    repeat split; [assumption|exact (DecimalZ.of_to (Z.pos p))|].
    simpl. unfold NilZero.string_of_uint.
    destruct (Pos.to_uint p); [contradiction|reflexivity..].
  - exists (Pos.to_uint p). pose proof (uint_of_pos_not_Nil p) as Hn.
    repeat split; [assumption|exact (DecimalZ.of_to (Z.pos p))|].
    simpl. unfold NilZero.string_of_uint.
    destruct (Pos.to_uint p); [contradiction|reflexivity..].
Qed.

(** The canonical form of a sign and a numeral is one of the two texts
    [fromString] was shown to read. *)
Lemma canonicalForm_signed negative u n :
  u <> Decimal.Nil ->
  exists k whole fraction,
    whole ++ fraction
    = repeat "0"%char k ++ list_ascii_of_string (NilEmpty.string_of_uint u)
    /\ List.length fraction = n
    /\ canonicalForm_spec
         (signText negative
            ++ list_ascii_of_string (NilEmpty.string_of_uint u)) n
       = signText negative ++ whole
           ++ match n with O => [] | S _ => "."%char :: fraction end.
Proof.
  intros Hu.
  set (mag := list_ascii_of_string (NilEmpty.string_of_uint u)).
  set (padded := repeat "0"%char (S n - List.length mag) ++ mag).
  exists (S n - List.length mag)%nat,
    (firstn (List.length padded - n) padded),
    (skipn (List.length padded - n) padded).
  split; [apply firstn_skipn|]. split.
  - rewrite length_skipn. unfold padded.
    rewrite length_app, repeat_length. lia.
  - unfold canonicalForm_spec.
    destruct negative; cbn [signText app].
    + change (Ascii.eqb "-" "-") with true. cbv iota beta. reflexivity.
    + assert (Hfirst : exists c t, mag = c :: t /\ Ascii.eqb c "-" = false).
      { unfold mag. destruct u; [contradiction|..]; simpl; eauto. }
      destruct Hfirst as (c & t & E & Hc).
      fold mag. fold padded. unfold padded. rewrite E, Hc. reflexivity.
Qed.

(** X30. [Decimal.fromString] reads back what [toString] writes, wherever
    [toString] writes the canonical form: for digits that are not negative,
    and for negative ones with at least [scale] digits. *)
Theorem Decimal_fromString_toString (d : Decimal) :
  Decimal_ok d ->
  0 <= digits d \/ scale d <= Z.of_nat (digitCount (digits d)) ->
  Decimal_fromString (Decimal_toString d) = Return d.
Proof.
  intros Hok Hcanon. unfold Decimal_ok in Hok.
  rewrite (Decimal_toString_canonical d Hcanon).
  destruct (bigint_text (digits d)) as (u & Hu & Hval & ->).
  destruct (canonicalForm_signed (digits d <? 0) u (Z.to_nat (scale d)) Hu)
    as (k & whole & fraction & Hsplit & Hlen & ->).
  assert (Hd : signed (digits d <? 0) (Z.of_uint u) = digits d).
  { rewrite Hval. unfold signed. destruct (Z.ltb_spec (digits d) 0); lia. }
  destruct d as [n s]. cbn [digits scale] in *.
  destruct (Z.to_nat s) as [|m] eqn:Es.
  - rewrite app_nil_r.
    assert (fraction = []) as -> by (now destruct fraction).
    rewrite app_nil_r in Hsplit. rewrite Hsplit.
    rewrite (fromString_plain _ k u Hu), Hd. do 2 f_equal. lia.
  - rewrite (fromString_pointed _ k u whole fraction Hu Hsplit), Hd, Hlen.
    do 2 f_equal. lia.
Qed.

Lemma Decimal_fromString_toString_witness :
  Decimal_ok (mkDecimal (-1205) 3)
  /\ (0 <= digits (mkDecimal (-1205) 3)
      \/ scale (mkDecimal (-1205) 3)
         <= Z.of_nat (digitCount (digits (mkDecimal (-1205) 3))))
  /\ Decimal_toString (mkDecimal (-1205) 3) = "-1.205"
  /\ Decimal_fromString "-1.205" = Return (mkDecimal (-1205) 3).
Proof.
  assert (Hok : Decimal_ok (mkDecimal (-1205) 3))
    by (unfold Decimal_ok; simpl; lia).
  assert (Hc : 0 <= digits (mkDecimal (-1205) 3)
               \/ scale (mkDecimal (-1205) 3)
                  <= Z.of_nat (digitCount (digits (mkDecimal (-1205) 3))))
    by (right; vm_compute; discriminate).
  split; [exact Hok|]. split; [exact Hc|]. split; [reflexivity|].
  exact (Decimal_fromString_toString (mkDecimal (-1205) 3) Hok Hc).
Defined.
